(** * qlipper.postprocess.plot_mee: the numerical pipeline behind the plots

    A shallow embedding of [src/qlipper/postprocess/plot_mee.py].  The two
    entry points, [plot_elements_mee] and [plot_trajectory_mee], are modelled
    up to the data they hand to matplotlib: the element history and target
    series of the time-series figure with its title, and the coloured
    segments and orbit count of the 3D figure.  Axis styling, legends, the
    sphere and the Moon overlay are rendering only and are left out, and so
    are the exceptions matplotlib itself can raise (curves whose x and y
    data differ in length on lines 76-96, a keyword argument [ax.plot] does
    not know): a result of the model is the data the code has computed when
    it reaches those calls, not a promise that they return.

    Collaborators that live in other modules of the package
    ([qlipper.converters], [qlipper.constants], [qlipper.sim.ephemeris],
    [qlipper.postprocess.interpolation], the colour map) are interfaces
    here; what is proved of the two entry points holds for any
    implementation of them. *)

From Stdlib Require Import Reals Lra Lia ZArith String.
From stdpp Require Import base option list strings gmap.

(** ** Two-dimensional arrays *)

(** A [jax.numpy] array of shape [(N, C)] is kept as its [N] rows together
    with the column count [C], which an array without rows still has; every
    row of an array has [ncols] entries. *)
Record array2 (F : Type) := Array2 { ncols : nat; rows : list (list F) }.
Arguments Array2 {F} _ _.
Arguments ncols {F} _.
Arguments rows {F} _.

Definition same_shape {F} (a b : array2 F) : Prop :=
  ncols a = ncols b ∧ map length (rows a) = map length (rows b).

(** The scalar type of the arrays with the three operations the module
    itself performs on it: the literals [0] (of [zeros_like]) and [1.0],
    and subtraction. *)
Class Scalar (F : Type) := { fzero : F; fone : F; fsub : F → F → F }.

Section Arrays.
Context {F : Type} {scalar : Scalar F}.

(** [jnp.zeros_like(a)]. *)
Definition zeros_like (a : array2 F) : array2 F :=
  Array2 (ncols a) (map (map (λ _, fzero)) (rows a)).

(** [a[:, i]] for a static index [i >= 0]: an axis of size 0 cannot be
    indexed (IndexError), an index past the end is clamped to the last
    column. *)
Definition get_col (i : nat) (a : array2 F) : option (list F) :=
  if decide (ncols a = 0) then None
  else Some (map (λ r, default fzero (r !! (i `min` (ncols a - 1)))) (rows a)).

(** [a.at[:, i].set(v)] for a scalar [v]: an axis of size 0 cannot be
    indexed, and an update past the last column is dropped (stdpp's list
    insert leaves the row unchanged there). *)
Definition at_col_set (i : nat) (v : F) (a : array2 F) : option (array2 F) :=
  if decide (ncols a = 0) then None
  else Some (Array2 (ncols a) (map (λ r, <[i:=v]> r) (rows a))).

(** NumPy broadcasting of one axis: equal sizes, or one of them is 1. *)
Definition bcast_dim (n m : nat) : option nat :=
  if decide (n = m) then Some n
  else if decide (n = 1) then Some m
  else if decide (m = 1) then Some n
  else None.

(** An axis of size [from = 1] is repeated to the broadcast size [n];
    any other axis already has that size. *)
Definition stretch {A} (from n : nat) (l : list A) : list A :=
  match l with
  | [x] => if decide (from = 1) then replicate n x else l
  | _ => l
  end.

(** [a.at[:, i].set(vs)] for a one-dimensional [vs], broadcast against
    the rows of [a]. *)
Definition at_col_set_vec (i : nat) (vs : list F) (a : array2 F)
  : option (array2 F) :=
  if decide (ncols a = 0) then None
  else if decide (length vs = length (rows a) ∨ length vs = 1) then
    Some (Array2 (ncols a)
            (zip_with (λ r v, <[i:=v]> r) (rows a)
                      (stretch (length vs) (length (rows a)) vs)))
  else None.

(** [a - b] on two-dimensional arrays, with broadcasting; [None] is the
    error raised on incompatible shapes. *)
Definition arr_sub (a b : array2 F) : option (array2 F) :=
  n ← bcast_dim (length (rows a)) (length (rows b));
  c ← bcast_dim (ncols a) (ncols b);
  Some (Array2 c
          (zip_with (λ ra rb, zip_with fsub (stretch (ncols a) c ra)
                                            (stretch (ncols b) c rb))
                    (stretch (length (rows a)) n (rows a))
                    (stretch (length (rows b)) n (rows b)))).

(** [xs - 1.0] on a one-dimensional array. *)
Definition sub_scalar (xs : list F) (c : F) : list F :=
  map (λ x, fsub x c) xs.
End Arrays.

(** ** Collaborators of [plot_elements_mee] *)

(** [qlipper.constants] and [qlipper.converters]: the two gravitational
    parameters and the batch converters.  A converter may raise on an input
    it does not accept, which is [None]. *)
Class Converters (F : Type) := {
  MU_EARTH : F;
  MU_MOON : F;
  batch_mee_to_cartesian : array2 F → F → option (array2 F);
  batch_cartesian_to_mee : array2 F → F → option (array2 F)
}.

(** Modelled from the spec: [qlipper.sim.ephemeris] is not part of the
    sources; the ephemeris evaluator is "a function from a time scalar to a
    6-element Cartesian state (position, velocity) in the primary frame". *)
Record Ephem (F : Type) := { evaluate : F → list F }.
Arguments evaluate {F} _ _.
Definition ephem_dim : nat := 6.

Record Params (F : Type) := { moon_ephem : Ephem F }.
Arguments moon_ephem {F} _.

(** Modelled from the spec: [qlipper.configuration.SimConfig] is not part
    of the sources; of the configuration the element plot reads the
    steering-law identifier and the constant target vector.  [y_target] is
    indexed as a Python sequence: a position it does not have raises. *)
Record SimConfig (F : Type) := { steering_law : string; y_target : list F }.
Arguments steering_law {F} _.
Arguments y_target {F} _.

(** ** [plot_elements_mee] *)

(** What the function hands to the figure: the element history and the
    target series that are drawn, and the title. *)
Record elements_plot (F : Type) := ElementsPlot {
  plot_y : array2 F;
  plot_y_target : array2 F;
  titlestr : string
}.
Arguments ElementsPlot {F} _ _ _.
Arguments plot_y {F} _.
Arguments plot_y_target {F} _.
Arguments titlestr {F} _.

Section PlotElements.
Context {F : Type} {scalar : Scalar F} {converters : Converters F}.

(** [jax.vmap(params.moon_ephem.evaluate)(t)]: one state per time. *)
Definition vmap_evaluate (params : Params F) (t : list F) : array2 F :=
  Array2 ephem_dim (map (evaluate (moon_ephem params)) t).

(** [y_target = jnp.zeros_like(y)] followed by
    [for i in range(5): y_target = y_target.at[:, i].set(cfg.y_target[i])]. *)
Definition constant_target (cfg : SimConfig F) (y : array2 F)
  : option (array2 F) :=
  foldl (λ acc i, y_tgt ← acc; v ← y_target cfg !! i; at_col_set i v y_tgt)
        (Some (zeros_like y)) (seq 0 5).

(** The data part of [plot_elements_mee] (lines 47-68 and 101-103): which
    history and which target are drawn, under which title.  [None] is an
    exception raised on the way.  Lines 70-96, which plot columns 0 to 4 of
    both arrays against [t / 86400], are not part of the model. *)
Definition plot_elements_mee (t : list F) (y : array2 F) (cfg : SimConfig F)
    (params : Params F) (wrt_moon : bool) : option (elements_plot F) :=
  let targeting_moon := String.eqb (steering_law cfg) "bbq_law" in
  '(y, y_tgt) ←
    (if targeting_moon then
       let moon_state := vmap_evaluate params t in
       cart_state ← batch_mee_to_cartesian y MU_EARTH;
       if wrt_moon then
         (* moon -> constant orbit *)
         rel_state ← arr_sub cart_state moon_state;
         y ← batch_cartesian_to_mee rel_state MU_MOON;
         p ← get_col 0 y;
         y ← at_col_set_vec 0 (sub_scalar p fone) y;
         y_tgt ← constant_target cfg y;
         Some (y, y_tgt)
       else
         (* earth --> moving orbit *)
         y_tgt ← batch_cartesian_to_mee moon_state MU_EARTH;
         Some (y, y_tgt)
     else
       (* earth --> constant orbit *)
       y_tgt ← constant_target cfg y;
       Some (y, y_tgt));
  let titlestr :=
    "Modified Equinoctial Elements" +:+
    (if wrt_moon then " (Selenocentric)" else " (Geocentric)") in
  Some (ElementsPlot y y_tgt titlestr).
End PlotElements.

(** The reference shifter in the words of its specification: convert the
    history to Cartesian about the Earth, subtract the Moon's state, convert
    the difference back about the Moon, and take 1.0 off the first element
    of every sample. *)
Section ReferenceShifter.
Context {F : Type} {scalar : Scalar F} {converters : Converters F}.

Definition dec_first (m : array2 F) : array2 F :=
  Array2 (ncols m)
    (map (λ row, match row with
                 | p :: rest => fsub p fone :: rest
                 | [] => []
                 end) (rows m)).

Definition reference_shift_spec (moon_state y : array2 F) : option (array2 F) :=
  cart ← batch_mee_to_cartesian y MU_EARTH;
  rel ← arr_sub cart moon_state;
  m ← batch_cartesian_to_mee rel MU_MOON;
  Some (dec_first m).

(** The constant target in the words of its specification: every sample
    carries the first five entries of [cfg.y_target]; a column past the
    fifth stays zero. *)
Definition target_row_spec (cfg : SimConfig F) (width : nat) : list F :=
  take width (take 5 (y_target cfg) ++ replicate (width - 5) fzero).

Definition constant_target_spec (cfg : SimConfig F) (y : array2 F) : array2 F :=
  Array2 (ncols y) (map (λ row, target_row_spec cfg (length row)) (rows y)).
End ReferenceShifter.

(** ** [plot_trajectory_mee] *)

(** The 3D plot works on floating-point numbers; they are idealised as
    real numbers here, [np.pi] as [PI]. *)
#[export] Instance R_scalar : Scalar R :=
  {| fzero := 0%R; fone := 1%R; fsub := Rminus |}.

(** Python's [a // b] on floats. *)
Definition floor_divide (a b : R) : R := IZR (Zfloor (a / b)).

(** [mee[-1, -1]]: the last entry of the last row; an empty history has
    none (IndexError). *)
Definition last_entry {A} (mee : array2 A) : option A :=
  row ← last (rows mee); last row.

(** [n_orbits = mee[-1, -1] // (2 * np.pi)]. *)
Definition orbit_count (mee : array2 R) : option R :=
  l_final ← last_entry mee; Some (floor_divide l_final (2 * PI)).

(** [np.linspace(0, stop, num, dtype=int)]: the samples [i * stop / (num - 1)]
    rounded down.  NumPy forms [i * (stop / (num - 1))] in binary64 before
    rounding down; the model uses exact arithmetic, which agrees whenever
    the products are exact, as they are for [stop = 1000] and [num = 51]
    (step 20.0). *)
Definition linspace_int (stop num : nat) : list nat :=
  map (λ i, i * stop / (num - 1)) (seq 0 num).

(** [l[start:stop]] for non-negative bounds. *)
Definition py_slice {A} (start stop : nat) (l : list A) : list A :=
  take (stop - start) (drop start l).

Definition NUM_SEGMENTS : nat := 50.

(** [plot_slice = slice(idx_breakpoints[i], idx_breakpoints[i + 1] + 1)]
    applied to the points of the path. *)
Definition plot_slice {A} (cart : list A) (i : nat) : list A :=
  let idx_breakpoints := linspace_int (length cart) (NUM_SEGMENTS + 1) in
  py_slice (idx_breakpoints !!! i) (idx_breakpoints !!! (i + 1) + 1) cart.

(** The segments the loop draws, in order. *)
Definition trajectory_segments {A} (cart : list A) : list (list A) :=
  map (plot_slice cart) (seq 0 NUM_SEGMENTS).

(** Segments joined again: each segment after the first starts with the
    point its predecessor ended with, and that first point is left out. *)
Definition stitch {A} (segs : list (list A)) : list A :=
  match segs with
  | [] => []
  | s :: rest => s ++ concat (map (drop 1) rest)
  end.

(** Keyword arguments of [ax.plot]: a colour of the colour map is an RGBA
    tuple; a caller may pass numbers, strings or tuples of its own. *)
Definition rgba : Type := R * R * R * R.
Inductive kwval := KNum (x : R) | KStr (s : string) | KColor (c : rgba).

(** One call [ax.plot(xs, ys, zs, **kwargs)]. *)
Record line3d := Line3d {
  xs : list R; ys : list R; zs : list R;
  line_kwargs : gmap string kwval
}.

Record trajectory_plot := TrajectoryPlot {
  lines : list line3d;
  n_orbits : R      (* scales the ticks of the "Orbit Number" colour bar *)
}.

Section PlotTrajectory.
Context {converters : Converters R}.
(** [qlipper.postprocess.interpolation.interpolate_mee] and
    [plt.get_cmap("turbo")]. *)
Variable interpolate_mee :
  list R → array2 R → nat → option (list R * array2 R).
Variable cm : R → rgba.

(** [actual_plot_kwargs] of iteration [i]: Python's
    [default_plot_kwargs | plot_kwargs] keeps the right operand's entry
    for a key both have, stdpp's union the left one's. *)
Definition actual_plot_kwargs (plot_kwargs : gmap string kwval) (i : nat)
  : gmap string kwval :=
  let default_plot_kwargs : gmap string kwval :=
    {[ "linewidth" := KNum 1; "color" := KColor (cm (INR i / INR NUM_SEGMENTS)) ]} in
  plot_kwargs ∪ default_plot_kwargs.

(** The body of [for i in range(NUM_SEGMENTS)]: the three coordinate
    columns of the slice and the keyword arguments handed to [ax.plot];
    what [ax.plot] makes of the keyword arguments is not modelled. *)
Definition draw_segment (cart : array2 R) (plot_kwargs : gmap string kwval)
    (i : nat) : option line3d :=
  let seg := Array2 (ncols cart) (plot_slice (rows cart) i) in
  x ← get_col 0 seg; y ← get_col 1 seg; z ← get_col 2 seg;
  Some (Line3d x y z (actual_plot_kwargs plot_kwargs i)).

Definition draw_segments (cart : array2 R) (plot_kwargs : gmap string kwval)
  : option (list line3d) :=
  mapM (draw_segment cart plot_kwargs) (seq 0 NUM_SEGMENTS).

(** The data part of [plot_trajectory_mee] (lines 135-171 and 195-201).
    [cfg] is read by the Moon overlay (lines 178-189) only and is not an
    argument here; the overlay and [plot_sphere] are not modelled. *)
Definition plot_trajectory_mee (t : list R) (mee : array2 R)
    (plot_kwargs : gmap string kwval) : option trajectory_plot :=
  n_orbits ← orbit_count mee;
  '(t_interp, mee_interp) ← interpolate_mee t mee 100;
  cart ← batch_mee_to_cartesian mee_interp MU_EARTH;
  lines ← draw_segments cart plot_kwargs;
  Some (TrajectoryPlot lines n_orbits).
End PlotTrajectory.

(** Modelled from the spec: [interpolate_mee] is not part of the sources.
    "Determines the total sweep of the true-longitude component ..., divides
    it into seg_per_orbit samples per 2π of sweep (i.e., angular step =
    2π / seg_per_orbit) ...  Output length is proportional to total
    revolutions × seg_per_orbit, rounded up to cover the final partial
    revolution." *)
Definition interp_length (sweep : R) (seg_per_orbit : nat) : Z :=
  Zceil (sweep / (2 * PI) * INR seg_per_orbit).

(** The title of the element plot, as a function of the flag. *)
Definition title (wrt_moon : bool) : string :=
  if wrt_moon then "Modified Equinoctial Elements (Selenocentric)"
  else "Modified Equinoctial Elements (Geocentric)".

(** ** Concrete collaborators for the examples *)

(** Integer scalars, on which every example evaluates. *)
#[export] Instance Z_scalar : Scalar Z :=
  {| fzero := 0%Z; fone := 1%Z; fsub := Z.sub |}.

(** Converters that hand their input back: enough to run the control flow
    of the plots on concrete data. *)
Definition passthrough_converters {F} (mu_earth mu_moon : F) : Converters F :=
  {| MU_EARTH := mu_earth; MU_MOON := mu_moon;
     batch_mee_to_cartesian := λ a _, Some a;
     batch_cartesian_to_mee := λ a _, Some a |}.

Definition q_law_cfg : SimConfig Z :=
  {| steering_law := "q_law"; y_target := [11; 12; 13; 14; 15]%Z |}.
Definition bbq_law_cfg : SimConfig Z :=
  {| steering_law := "bbq_law"; y_target := [11; 12; 13; 14; 15]%Z |}.

(** An ephemeris that moves the Moon along the x axis. *)
Definition sliding_moon : Params Z :=
  {| moon_ephem := {| evaluate := λ t, [t; 0; 0; 0; 1; 0]%Z |} |}.

(** A two-sample history with six columns. *)
Definition two_samples : array2 Z :=
  Array2 6 [[7; 1; 2; 3; 4; 5]; [8; 1; 2; 3; 4; 9]]%Z.

(** What the element plot draws for [two_samples] under "bbq_law" about
    the Moon, under "q_law", and for a trajectory that rides on the Moon. *)
Definition shifted_two_samples : elements_plot Z :=
  ElementsPlot
    (Array2 6 [[6; 1; 2; 3; 3; 5]; [6; 1; 2; 3; 3; 9]]%Z)
    (Array2 6 [[11; 12; 13; 14; 15; 0]; [11; 12; 13; 14; 15; 0]]%Z)
    "Modified Equinoctial Elements (Selenocentric)".

Definition fixed_two_samples : elements_plot Z :=
  ElementsPlot two_samples
    (Array2 6 [[11; 12; 13; 14; 15; 0]; [11; 12; 13; 14; 15; 0]]%Z)
    "Modified Equinoctial Elements (Geocentric)".

Definition on_the_moon : array2 Z :=
  Array2 6 [[0; 0; 0; 0; 1; 0]; [1; 0; 0; 0; 1; 0]]%Z.

Definition shifted_on_the_moon : elements_plot Z :=
  ElementsPlot
    (Array2 6 [[-1; 0; 0; 0; 0; 0]; [-1; 0; 0; 0; 0; 0]]%Z)
    (Array2 6 [[11; 12; 13; 14; 15; 0]; [11; 12; 13; 14; 15; 0]]%Z)
    "Modified Equinoctial Elements (Selenocentric)".

(** Collaborators and data for the 3D plot: an interpolation that hands
    the history back, a colour ramp, a history that ends half a revolution
    in, and two short paths. *)
Definition identity_interpolation (t : list R) (mee : array2 R) (_ : nat)
  : option (list R * array2 R) := Some (t, mee).

Definition red_ramp (x : R) : rgba := (x, 0, 0, 1)%R.

Definition half_revolution : array2 R :=
  Array2 6 [[7000000; 0; 0; 0; 0; 0]; [7000000; 0; 0; 0; 0; PI]]%R.

Definition short_path : array2 R :=
  Array2 3 [[1; 0; 0]; [0; 1; 0]; [0; 0; 1]]%R.

Definition other_path : array2 R :=
  Array2 3 [[2; 2; 2]; [3; 3; 3]]%R.

(** ** The segment loop over given breakpoints *)

(** The loop of [plot_trajectory_mee] (lines 159-171) for whatever
    [idx_breakpoints] holds: segment [i] is
    [cart[idx_breakpoints[i] : idx_breakpoints[i + 1] + 1]].
    [trajectory_segments] is this loop at [linspace_int]. *)
Definition segments_at {A} (idx_breakpoints : list nat) (cart : list A)
  : list (list A) :=
  map (λ i, py_slice (idx_breakpoints !!! i)
                     (idx_breakpoints !!! (i + 1) + 1) cart)
      (seq 0 NUM_SEGMENTS).

(** What [np.linspace(0, M, NUM_SEGMENTS + 1, dtype=int)] returns whichever
    way its binary64 products [i * (M / 50)] round: the first sample is 0,
    the last is set to [M] itself, the samples never decrease (rounding and
    [floor] are monotone), and the inner ones, at most 49/50 of [M], stay
    below [M] when [M] is positive. *)
Definition linspace_like (M : nat) (bps : list nat) : Prop :=
  bps !!! 0 = 0
  ∧ bps !!! NUM_SEGMENTS = M
  ∧ (∀ i, i < NUM_SEGMENTS → bps !!! i ≤ bps !!! (i + 1))
  ∧ (∀ i, i < NUM_SEGMENTS → 0 < M → bps !!! i < M).

(** The breakpoints NumPy returns for a path of 58 points; the product
    [25 * (58 / 50)] rounds to 28.999999999999996, so sample 25 is 28 where
    exact arithmetic gives 29. *)
Definition breakpoints_58 : list nat :=
  [0; 1; 2; 3; 4; 5; 6; 8; 9; 10; 11; 12; 13; 15; 16; 17; 18; 19; 20; 22;
   23; 24; 25; 26; 27; 28; 30; 31; 32; 33; 34; 35; 37; 38; 39; 40; 41; 42;
   44; 45; 46; 47; 48; 49; 51; 52; 53; 54; 55; 56; 58].

(** Data for the examples: a history of one sample and a history of two
    samples without columns. *)
Definition one_sample : array2 Z := Array2 6 [[7; 1; 2; 3; 4; 5]]%Z.

Definition no_columns : array2 Z := Array2 0 [[]; []].

(** Converters whose MEE-to-Cartesian direction raises, and ones that
    both raise. *)
Definition no_cartesian_converters : Converters Z :=
  {| MU_EARTH := 398600%Z; MU_MOON := 4903%Z;
     batch_mee_to_cartesian := λ _ _, None;
     batch_cartesian_to_mee := λ a _, Some a |}.

Definition failing_converters : Converters Z :=
  {| MU_EARTH := 398600%Z; MU_MOON := 4903%Z;
     batch_mee_to_cartesian := λ _ _, None;
     batch_cartesian_to_mee := λ _ _, None |}.

(** * Properties *)

(** ** Arrays *)

Section ArrayFacts.
Context {F : Type} {scalar : Scalar F}.

Lemma stretch_same {A} (n : nat) (l : list A) : stretch n n l = l.
Proof.
  destruct l as [|x [|??]]; simpl; try done.
  case_decide; subst; reflexivity.
Qed.

Lemma map_const_replicate {A} (c : F) (l : list A) :
  map (λ _, c) l = replicate (length l) c.
Proof. induction l; simpl; congruence. Qed.

(** On arrays of one shape the subtraction is sample by sample. *)
Lemma arr_sub_samplewise (a b : array2 F) :
  ncols a = ncols b → length (rows a) = length (rows b) →
  arr_sub a b
  = Some (Array2 (ncols a) (zip_with (zip_with fsub) (rows a) (rows b))).
Proof.
  intros Hc Hr. unfold arr_sub, bcast_dim. rewrite <- Hc, <- Hr.
  rewrite !decide_True by done. simpl.
  rewrite !stretch_same. do 2 f_equal.
  apply zip_with_ext; [|done|done].
  intros ra rb. by rewrite !stretch_same.
Qed.

Lemma zip_with_fsub_diag (r : list F) :
  (∀ x : F, fsub x x = fzero) →
  zip_with fsub r r = map (λ _, fzero) r.
Proof. intros Hd. induction r; simpl; [done|]. by rewrite Hd, IHr. Qed.

Lemma arr_sub_diag (a : array2 F) :
  (∀ x : F, fsub x x = fzero) → arr_sub a a = Some (zeros_like a).
Proof.
  intros Hd. rewrite arr_sub_samplewise by done.
  unfold zeros_like. do 2 f_equal.
  induction (rows a) as [|r l IH]; simpl; [done|].
  by rewrite zip_with_fsub_diag, IH.
Qed.

Lemma at_col_set_cols (i : nat) (v : F) (c : nat) (rs : list (list F)) :
  c ≠ 0 →
  at_col_set i v (Array2 c rs) = Some (Array2 c (map (λ r, <[i:=v]> r) rs)).
Proof. intros Hc. unfold at_col_set. simpl. by rewrite decide_False. Qed.

(** [y.at[:, 0].set(y[:, 0] - 1.0)] takes 1.0 off the head of every row. *)
Lemma set_first_minus_one (y : array2 F) :
  (p ← get_col 0 y; at_col_set_vec 0 (sub_scalar p fone) y)
  = if decide (ncols y = 0) then None
    else Some (Array2 (ncols y)
                 (map (λ row, match row with
                              | p :: rest => fsub p fone :: rest
                              | [] => []
                              end) (rows y))).
Proof.
  unfold get_col, at_col_set_vec, sub_scalar.
  destruct (decide (ncols y = 0)) as [Hz|Hz]; simpl; [done|].
  rewrite decide_True by (left; by rewrite !length_map).
  rewrite !length_map, stretch_same. do 2 f_equal.
  induction (rows y) as [|r l IH]; simpl; [done|].
  rewrite IH. f_equal. by destruct r.
Qed.
End ArrayFacts.

(** ** The element plot *)

Section PlotElementsFacts.
Context {F : Type} {scalar : Scalar F} {converters : Converters F}.
Implicit Types (y : array2 F) (cfg : SimConfig F) (params : Params F).

Lemma inserts_target_row (v0 v1 v2 v3 v4 : F) (row : list F) :
  <[4:=v4]> (<[3:=v3]> (<[2:=v2]> (<[1:=v1]> (<[0:=v0]>
      (map (λ _, fzero) row)))))
  = take (length row)
      (v0 :: v1 :: v2 :: v3 :: v4 :: replicate (length row - 5) fzero).
Proof.
  destruct row as [|a0 [|a1 [|a2 [|a3 [|a4 row]]]]]; simpl; try done.
  rewrite Nat.sub_0_r, map_const_replicate.
  by rewrite take_replicate, Nat.min_id.
Qed.

(** The loop that fills the constant target succeeds exactly on an array
    with at least one column and a target vector of at least five
    entries, and then yields the broadcast target. *)
Lemma constant_target_eq cfg y :
  constant_target cfg y
  = if decide (ncols y ≠ 0 ∧ 5 ≤ length (y_target cfg))
    then Some (constant_target_spec cfg y) else None.
Proof.
  unfold constant_target, constant_target_spec, target_row_spec, zeros_like.
  destruct (decide (ncols y = 0)) as [Hz|Hz].
  - rewrite decide_False by tauto.
    destruct (y_target cfg) as [|v0 rest]; simpl; [done|].
    unfold at_col_set; simpl. by rewrite decide_True.
  - destruct (y_target cfg) as [|v0 [|v1 [|v2 [|v3 [|v4 rest]]]]]; simpl;
      repeat (rewrite at_col_set_cols by done; simpl);
      try (rewrite decide_False by (simpl; lia); reflexivity).
    rewrite decide_True by (simpl; lia). do 2 f_equal.
    rewrite !map_map. apply map_ext. intros row.
    apply inserts_target_row.
Qed.

Lemma target_row_length cfg (w : nat) :
  5 ≤ length (y_target cfg) → length (target_row_spec cfg w) = w.
Proof.
  intros Hl. unfold target_row_spec.
  rewrite length_take, length_app, length_take, length_replicate. lia.
Qed.

Lemma target_row_lookup cfg (w j : nat) :
  5 ≤ length (y_target cfg) → j < w →
  target_row_spec cfg w !! j
  = if decide (j < 5) then y_target cfg !! j else Some fzero.
Proof.
  intros Hl Hj. unfold target_row_spec.
  rewrite lookup_take_lt by done.
  case_decide as Hj5.
  - rewrite lookup_app_l by (rewrite length_take; lia).
    by rewrite lookup_take_lt.
  - rewrite lookup_app_r by (rewrite length_take; lia).
    apply lookup_replicate_2. rewrite length_take. lia.
Qed.

(** The three branches of [plot_elements_mee], one equation each. *)
Lemma plot_elements_fixed t y cfg params wrt_moon :
  steering_law cfg ≠ "bbq_law" →
  plot_elements_mee t y cfg params wrt_moon
  = (y_tgt ← constant_target cfg y;
     Some (ElementsPlot y y_tgt (title wrt_moon))).
Proof.
  intros Hs. unfold plot_elements_mee.
  apply String.eqb_neq in Hs. rewrite Hs. simpl.
  by destruct (constant_target cfg y), wrt_moon.
Qed.

Lemma plot_elements_moving_earth t y cfg params :
  steering_law cfg = "bbq_law" →
  plot_elements_mee t y cfg params false
  = (_ ← batch_mee_to_cartesian y MU_EARTH;
     y_tgt ← batch_cartesian_to_mee (vmap_evaluate params t) MU_EARTH;
     Some (ElementsPlot y y_tgt (title false))).
Proof.
  intros Hs. unfold plot_elements_mee.
  apply String.eqb_eq in Hs. rewrite Hs. simpl.
  destruct (batch_mee_to_cartesian y MU_EARTH); simpl; [|done].
  by destruct (batch_cartesian_to_mee _ MU_EARTH).
Qed.

Lemma plot_elements_moving_moon t y cfg params :
  steering_law cfg = "bbq_law" →
  plot_elements_mee t y cfg params true
  = (y' ← reference_shift_spec (vmap_evaluate params t) y;
     y_tgt ← constant_target cfg y';
     Some (ElementsPlot y' y_tgt (title true))).
Proof.
  intros Hs. unfold plot_elements_mee, reference_shift_spec.
  apply String.eqb_eq in Hs. rewrite Hs. simpl.
  destruct (batch_mee_to_cartesian y MU_EARTH) as [cart|]; simpl; [|done].
  destruct (arr_sub cart _) as [rel|]; simpl; [|done].
  destruct (batch_cartesian_to_mee rel MU_MOON) as [m|]; simpl; [|done].
  pose proof (set_first_minus_one m) as Hm.
  destruct (get_col 0 m) as [p|]; simpl in *.
  - rewrite Hm. case_decide as Hz; simpl.
    + rewrite constant_target_eq. unfold dec_first. simpl.
      by rewrite decide_False by (simpl; tauto).
    + fold (dec_first m). by destruct (constant_target cfg (dec_first m)).
  - case_decide as Hz; [|done].
    rewrite constant_target_eq. unfold dec_first. simpl.
    by rewrite decide_False by (simpl; tauto).
Qed.
End PlotElementsFacts.

(** A run that returned a result passed every step: [bind_inv H] names the
    value of each step of [H : (x ← m; k) = Some r] and leaves the last
    equation. *)
Ltac bind_inv H :=
  repeat match type of H with
         | mbind _ ?m = Some _ =>
             let E := fresh "E" in
             destruct m eqn:E; simpl in H; [|discriminate H]
         end.

Section PlotElementsClaims.
Context {F : Type} {scalar : Scalar F} {converters : Converters F}.
Implicit Types (y : array2 F) (cfg : SimConfig F) (params : Params F).

(** In both constant-target branches the target is the loop's result on
    the history that is drawn. *)
Lemma constant_branches_target t y cfg params wrt_moon r :
  steering_law cfg ≠ "bbq_law" ∨ wrt_moon = true →
  plot_elements_mee t y cfg params wrt_moon = Some r →
  constant_target cfg (plot_y r) = Some (plot_y_target r).
Proof.
  intros Hmode Hr.
  destruct (decide (steering_law cfg = "bbq_law")) as [Hs|Hs].
  - destruct Hmode as [?| ->]; [done|].
    rewrite plot_elements_moving_moon in Hr by done.
    bind_inv Hr. by simplify_eq.
  - rewrite plot_elements_fixed in Hr by done.
    bind_inv Hr. by simplify_eq.
Qed.

(** C1: when the steering law is not "bbq_law" the target series is the
    constant vector [cfg.y_target] broadcast over the history, whatever
    the times and the ephemeris; when it is "bbq_law" and [wrt_moon] is
    false the target is the Moon's ephemeris, one Cartesian state per
    sample, converted to MEE with the Earth's gravitational parameter. *)
Theorem target_mode_selection t y cfg params :
  (steering_law cfg ≠ "bbq_law" → ∀ wrt_moon,
     plot_y_target <$> plot_elements_mee t y cfg params wrt_moon
     = (if decide (ncols y ≠ 0 ∧ 5 ≤ length (y_target cfg))
        then Some (constant_target_spec cfg y) else None)
     ∧ (∀ k row, rows y !! k = Some row →
          rows (constant_target_spec cfg y) !! k
          = Some (target_row_spec cfg (length row)))
     ∧ ∀ t' params',
         plot_y_target <$> plot_elements_mee t' y cfg params' wrt_moon
         = plot_y_target <$> plot_elements_mee t y cfg params wrt_moon)
  ∧ (steering_law cfg = "bbq_law" →
     plot_y_target <$> plot_elements_mee t y cfg params false
     = (_ ← batch_mee_to_cartesian y MU_EARTH;
        batch_cartesian_to_mee (vmap_evaluate params t) MU_EARTH)
     ∧ rows (vmap_evaluate params t)
       = map (evaluate (moon_ephem params)) t).
Proof.
  split.
  - intros Hs wrt_moon. split; [|split].
    + rewrite plot_elements_fixed, constant_target_eq by done.
      by case_decide.
    + intros k row Hk. unfold constant_target_spec. simpl.
      by rewrite list_lookup_fmap, Hk.
    + intros t' params'. by rewrite !plot_elements_fixed.
  - intros Hs. split; [|done].
    rewrite plot_elements_moving_earth by done.
    destruct (batch_mee_to_cartesian y MU_EARTH); simpl; [|done].
    by destruct (batch_cartesian_to_mee _ MU_EARTH).
Qed.

(** C2: with "bbq_law" and [wrt_moon] the history that is drawn is the
    reference shift of the input: to Cartesian about the Earth, minus the
    Moon's state (sample by sample on arrays of one shape), back to MEE
    with the Moon's gravitational parameter, and 1.0 off the first
    element of every sample. *)
Theorem reference_shifter_algorithm t y cfg params :
  steering_law cfg = "bbq_law" →
  plot_y <$> plot_elements_mee t y cfg params true
  = (y' ← reference_shift_spec (vmap_evaluate params t) y;
     _ ← constant_target cfg y';
     Some y')
  ∧ (∀ cart, batch_mee_to_cartesian y MU_EARTH = Some cart →
       ncols cart = ephem_dim → length (rows cart) = length t →
       arr_sub cart (vmap_evaluate params t)
       = Some (Array2 ephem_dim
                 (zip_with (zip_with fsub) (rows cart)
                           (map (evaluate (moon_ephem params)) t))))
  ∧ (∀ m k, rows (dec_first m) !! k
            = (λ row, match row with
                      | p :: rest => fsub p fone :: rest
                      | [] => []
                      end) <$> rows m !! k).
Proof.
  intros Hs. split; [|split].
  - rewrite plot_elements_moving_moon by done.
    destruct (reference_shift_spec _ y) as [y'|]; simpl; [|done].
    by destruct (constant_target cfg y').
  - intros cart _ Hc Hl.
    rewrite arr_sub_samplewise; simpl; rewrite ?length_map; try done.
    by rewrite Hc.
  - intros m k. unfold dec_first. simpl. by rewrite list_lookup_fmap.
Qed.

(** C9: the history is re-centred on the Moon exactly when the steering
    law is "bbq_law" and [wrt_moon] is set; otherwise the drawn history is
    the input itself, and under any other steering law the flag changes
    the title only, which follows [wrt_moon] alone. *)
Theorem recentering_needs_both_flags t y cfg params wrt_moon r :
  plot_elements_mee t y cfg params wrt_moon = Some r →
  (if decide (steering_law cfg = "bbq_law" ∧ wrt_moon = true)
   then reference_shift_spec (vmap_evaluate params t) y = Some (plot_y r)
   else plot_y r = y)
  ∧ (steering_law cfg ≠ "bbq_law" → ∀ flag,
       plot_elements_mee t y cfg params flag
       = Some (ElementsPlot y (plot_y_target r) (title flag)))
  ∧ titlestr r = title wrt_moon
  ∧ title true = "Modified Equinoctial Elements (Selenocentric)".
Proof.
  intros Hr.
  destruct (decide (steering_law cfg = "bbq_law")) as [Hs|Hs].
  - split; [|split; [done|split; [|done]]]; destruct wrt_moon.
    + rewrite decide_True by done.
      rewrite plot_elements_moving_moon in Hr by done.
      bind_inv Hr. by simplify_eq.
    + rewrite decide_False by (intros [_ ?]; done).
      rewrite plot_elements_moving_earth in Hr by done.
      bind_inv Hr. by simplify_eq.
    + rewrite plot_elements_moving_moon in Hr by done.
      bind_inv Hr. by simplify_eq.
    + rewrite plot_elements_moving_earth in Hr by done.
      bind_inv Hr. by simplify_eq.
  - rewrite decide_False by tauto.
    rewrite plot_elements_fixed in Hr by done. bind_inv Hr.
    injection Hr as <-. simpl.
    split; [done|]. split; [|done].
    intros _ flag. rewrite plot_elements_fixed by done.
    by rewrite E.
Qed.

(** C10: in both constant-target branches the target has the shape of
    the history that is drawn, its columns 0..4 hold [cfg.y_target[0..4]]
    in every sample, and every later column is zero. *)
Theorem constant_target_shape t y cfg params wrt_moon r :
  steering_law cfg ≠ "bbq_law" ∨ wrt_moon = true →
  plot_elements_mee t y cfg params wrt_moon = Some r →
  same_shape (plot_y_target r) (plot_y r)
  ∧ 5 ≤ length (y_target cfg)
  ∧ ∀ k row, rows (plot_y_target r) !! k = Some row →
      ∀ j, j < length row →
        row !! j = if decide (j < 5) then y_target cfg !! j else Some fzero.
Proof.
  intros Hmode Hr.
  pose proof (constant_branches_target _ _ _ _ _ _ Hmode Hr) as Ht.
  rewrite constant_target_eq in Ht.
  case_decide as Hok; [|done]. destruct Hok as [Hz Hl].
  injection Ht as Ht. rewrite <- Ht.
  split; [|split; [done|]].
  - split; [done|]. unfold constant_target_spec. simpl.
    rewrite map_map. apply map_ext. intros row.
    by apply target_row_length.
  - intros k row Hk j Hj. unfold constant_target_spec in Hk. simpl in Hk.
    rewrite list_lookup_fmap in Hk.
    destruct (rows (plot_y r) !! k) as [row0|]; simpl in Hk; [|done].
    injection Hk as <-.
    rewrite target_row_length in Hj by done.
    by apply target_row_lookup.
Qed.

(** X14: for a trajectory whose Cartesian state
    coincides with the Moon's ephemeris the relative state is all zeros,
    and the first component of every drawn sample is the first element
    the converter returns for that zero state, less 1.0. *)
Theorem coincident_shift_first_component t y cfg params r :
  (∀ x : F, fsub x x = fzero) →
  steering_law cfg = "bbq_law" →
  batch_mee_to_cartesian y MU_EARTH = Some (vmap_evaluate params t) →
  plot_elements_mee t y cfg params true = Some r →
  ∃ m, batch_cartesian_to_mee (zeros_like (vmap_evaluate params t)) MU_MOON
       = Some m
     ∧ length (rows (plot_y r)) = length (rows m)
     ∧ ∀ k p rest, rows m !! k = Some (p :: rest) →
         rows (plot_y r) !! k = Some (fsub p fone :: rest).
Proof.
  intros Hd Hs Hcart Hr.
  rewrite plot_elements_moving_moon in Hr by done.
  unfold reference_shift_spec in Hr. rewrite Hcart in Hr. simpl in Hr.
  rewrite arr_sub_diag in Hr by done. simpl in Hr.
  destruct (batch_cartesian_to_mee _ MU_MOON) as [m|]; simpl in Hr; [|done].
  destruct (constant_target cfg (dec_first m)); simpl in Hr; [|done].
  injection Hr as <-. exists m. simpl. split; [done|].
  split; [by rewrite length_map|].
  intros k p rest Hk. by rewrite list_lookup_fmap, Hk.
Qed.
End PlotElementsClaims.

(** *** The element plot on concrete data *)

Example plot_elements_q_law :
  plot_elements_mee (converters := passthrough_converters 398600 4903)%Z
    [0; 1]%Z two_samples q_law_cfg sliding_moon false
  = Some fixed_two_samples.
Proof. reflexivity. Qed.

(** Under "bbq_law" about the Earth the target is the Moon's own history
    and differs from sample to sample. *)
Example plot_elements_bbq_law_earth :
  plot_elements_mee (converters := passthrough_converters 398600 4903)%Z
    [0; 1]%Z two_samples bbq_law_cfg sliding_moon false
  = Some (ElementsPlot two_samples
            (Array2 6 [[0; 0; 0; 0; 1; 0]; [1; 0; 0; 0; 1; 0]]%Z)
            "Modified Equinoctial Elements (Geocentric)").
Proof. reflexivity. Qed.

(** A history with three columns: the writes to columns 3 and 4 are
    dropped; a target vector that is too short, or a history without
    columns, is an error. *)
Example constant_target_narrow :
  constant_target q_law_cfg (Array2 3 [[7; 1; 2]]%Z)
  = Some (Array2 3 [[11; 12; 13]]%Z).
Proof. reflexivity. Qed.

Example constant_target_short_vector :
  constant_target {| steering_law := "q_law"; y_target := [11; 12]%Z |}
    two_samples = None.
Proof. reflexivity. Qed.

Example constant_target_no_columns :
  constant_target q_law_cfg (Array2 0 [[]; []] : array2 Z) = None.
Proof. reflexivity. Qed.

(** A Moon ephemeris of one sample is broadcast against the history. *)
Example arr_sub_broadcast :
  arr_sub two_samples (Array2 6 [[1; 1; 1; 1; 1; 1]]%Z)
  = Some (Array2 6 [[6; 0; 1; 2; 3; 4]; [7; 0; 1; 2; 3; 8]]%Z).
Proof. reflexivity. Qed.

Example arr_sub_mismatch :
  arr_sub two_samples (Array2 6 [[1; 1; 1; 1; 1; 1]; [2; 2; 2; 2; 2; 2];
                                 [3; 3; 3; 3; 3; 3]]%Z) = None.
Proof. reflexivity. Qed.

Example plot_elements_bbq_law_moon :
  plot_elements_mee (converters := passthrough_converters 398600 4903)%Z
    [0; 1]%Z two_samples bbq_law_cfg sliding_moon true
  = Some shifted_two_samples.
Proof. reflexivity. Qed.

Lemma reference_shifter_algorithm_witness :
  steering_law bbq_law_cfg = "bbq_law"
  ∧ plot_y <$> plot_elements_mee (converters := passthrough_converters 398600 4903)%Z
                 [0; 1]%Z two_samples bbq_law_cfg sliding_moon true
    = Some (plot_y shifted_two_samples).
Proof.
  split; [reflexivity|].
  destruct (reference_shifter_algorithm
              (scalar := Z_scalar) (converters := passthrough_converters 398600 4903)%Z
              [0; 1]%Z two_samples bbq_law_cfg sliding_moon eq_refl)
    as [Heq _].
  rewrite Heq. reflexivity.
Defined.

Lemma recentering_needs_both_flags_witness :
  plot_elements_mee (converters := passthrough_converters 398600 4903)%Z
    [0; 1]%Z two_samples bbq_law_cfg sliding_moon true
  = Some shifted_two_samples
  ∧ reference_shift_spec (converters := passthrough_converters 398600 4903)%Z
      (vmap_evaluate sliding_moon [0; 1]%Z) two_samples
    = Some (plot_y shifted_two_samples)
  ∧ titlestr shifted_two_samples = title true.
Proof.
  assert (Hr : plot_elements_mee (converters := passthrough_converters 398600 4903)%Z
                 [0; 1]%Z two_samples bbq_law_cfg sliding_moon true
               = Some shifted_two_samples) by reflexivity.
  split; [exact Hr|].
  destruct (recentering_needs_both_flags _ _ _ _ _ _ Hr)
    as (Hshift & _ & Htitle & _).
  split; [|exact Htitle].
  rewrite decide_True in Hshift by (split; reflexivity). exact Hshift.
Defined.

Lemma constant_target_shape_witness :
  (steering_law q_law_cfg ≠ "bbq_law" ∨ false = true)
  ∧ plot_elements_mee (converters := passthrough_converters 398600 4903)%Z
      [0; 1]%Z two_samples q_law_cfg sliding_moon false
    = Some fixed_two_samples
  ∧ same_shape (plot_y_target fixed_two_samples) (plot_y fixed_two_samples).
Proof.
  assert (Hmode : steering_law q_law_cfg ≠ "bbq_law" ∨ false = true)
    by (left; discriminate).
  assert (Hr : plot_elements_mee (converters := passthrough_converters 398600 4903)%Z
                 [0; 1]%Z two_samples q_law_cfg sliding_moon false
               = Some fixed_two_samples) by reflexivity.
  split; [exact Hmode|]. split; [exact Hr|].
  exact (proj1 (constant_target_shape _ _ _ _ _ _ Hmode Hr)).
Defined.

Lemma coincident_shift_first_component_witness :
  plot_elements_mee (converters := passthrough_converters 398600 4903)%Z
    [0; 1]%Z on_the_moon bbq_law_cfg sliding_moon true
  = Some shifted_on_the_moon
  ∧ ∃ m, batch_cartesian_to_mee (Converters := passthrough_converters 398600 4903)%Z
           (zeros_like (vmap_evaluate sliding_moon [0; 1]%Z)) 4903%Z
         = Some m
       ∧ length (rows (plot_y shifted_on_the_moon)) = length (rows m)
       ∧ ∀ k p rest, rows m !! k = Some (p :: rest) →
           rows (plot_y shifted_on_the_moon) !! k = Some ((p - 1)%Z :: rest).
Proof.
  assert (Hr : plot_elements_mee (converters := passthrough_converters 398600 4903)%Z
                 [0; 1]%Z on_the_moon bbq_law_cfg sliding_moon true
               = Some shifted_on_the_moon) by reflexivity.
  split; [exact Hr|].
  exact (coincident_shift_first_component (scalar := Z_scalar)
           (converters := passthrough_converters 398600 4903)%Z
           [0; 1]%Z on_the_moon bbq_law_cfg sliding_moon shifted_on_the_moon
           Z.sub_diag eq_refl eq_refl Hr).
Defined.

(** ** The trajectory plot *)

Section Slices.
Context {A : Type}.
Implicit Types (l : list A) (a b c : nat).

Lemma py_slice_lookup a b l (j : nat) :
  py_slice a b l !! j = if decide (a + j < b) then l !! (a + j) else None.
Proof.
  unfold py_slice. case_decide.
  - rewrite lookup_take_lt by lia. apply lookup_drop.
  - apply lookup_take_ge. lia.
Qed.

Lemma length_py_slice a b l :
  length (py_slice a b l) = (b - a) `min` (length l - a).
Proof. unfold py_slice. by rewrite length_take, length_drop. Qed.

(** Adjacent slices merge. *)
Lemma py_slice_app a b c l :
  a ≤ b → b ≤ c → py_slice a b l ++ py_slice b c l = py_slice a c l.
Proof.
  intros Hab Hbc. unfold py_slice.
  replace (drop b l) with (drop (b - a) (drop a l))
    by (rewrite drop_drop; f_equal; lia).
  rewrite take_take_drop. f_equal. lia.
Qed.

Lemma drop_1_py_slice a b l : drop 1 (py_slice a b l) = py_slice (a + 1) b l.
Proof.
  unfold py_slice. rewrite skipn_firstn_comm, drop_drop.
  f_equal. lia.
Qed.

(** Dropping the first point of each of [n] consecutive overlapping
    slices and joining them gives one slice. *)
Lemma concat_overlapping_slices (f : nat → nat) l (k n : nat) :
  (∀ i, k ≤ i < k + n → f i ≤ f (i + 1)) →
  concat (map (λ i, drop 1 (py_slice (f i) (f (i + 1) + 1) l)) (seq k n))
  = py_slice (f k + 1) (f (k + n) + 1) l.
Proof.
  revert k. induction n as [|n IH]; intros k Hmono; simpl.
  - rewrite Nat.add_0_r. unfold py_slice.
    by rewrite Nat.sub_diag.
  - rewrite IH by (intros i Hi; apply Hmono; lia).
    rewrite drop_1_py_slice.
    assert (f k ≤ f (k + 1)) by (apply Hmono; lia).
    assert (f (S k) ≤ f (S k + n)) as Hle.
    { clear IH. induction n as [|n IHn].
      - by rewrite Nat.add_0_r.
      - etrans; [apply IHn; intros i Hi; apply Hmono; lia|].
        replace (S k + S n) with (S k + n + 1) by lia.
        apply Hmono. lia. }
    replace (k + 1) with (S k) in * by lia.
    replace (k + S n) with (S k + n) by lia.
    apply py_slice_app; lia.
Qed.

Lemma mapM_total {B} (f : nat → option B) (g : nat → B) (ns : list nat) :
  (∀ i, f i = Some (g i)) → mapM f ns = Some (map g ns).
Proof.
  intros Hf. induction ns as [|i ns IH]; simpl; [done|].
  by rewrite Hf, IH.
Qed.
End Slices.

Section Segmenter.
Context {A : Type}.
Implicit Types (cart : list A).

Lemma linspace_int_lookup (stop num i : nat) :
  i < num → linspace_int stop num !!! i = i * stop / (num - 1).
Proof.
  intros Hi. unfold linspace_int. apply list_lookup_total_correct.
  by rewrite list_lookup_fmap, lookup_seq_lt by done.
Qed.

(** The segments as slices between the exact breakpoints [i * M / 50]. *)
Lemma trajectory_segments_eq cart :
  trajectory_segments cart
  = map (λ i, py_slice (i * length cart / 50)
                       ((i + 1) * length cart / 50 + 1) cart) (seq 0 50).
Proof.
  unfold trajectory_segments. change NUM_SEGMENTS with 50.
  apply map_ext_in. intros i Hi. apply in_seq in Hi.
  unfold plot_slice. change (NUM_SEGMENTS + 1) with 51.
  by rewrite !linspace_int_lookup by lia.
Qed.

(** Whatever the length of the path, joining the segments without the
    repeated first points gives the path back. *)
Lemma stitch_trajectory_segments cart :
  stitch (trajectory_segments cart) = cart.
Proof.
  rewrite trajectory_segments_eq.
  change (seq 0 50) with (0 :: seq 1 49).
  rewrite map_cons. unfold stitch. rewrite map_map.
  assert (Hmono : ∀ i, i * length cart / 50 ≤ (i + 1) * length cart / 50)
    by (intros i; apply Nat.Div0.div_le_mono; lia).
  rewrite (concat_overlapping_slices (λ i, i * length cart / 50) cart 1 49)
    by (intros; apply Hmono).
  assert (1 * length cart / 50 ≤ 50 * length cart / 50)
    by (apply Nat.Div0.div_le_mono; lia).
  change (0 + 1) with 1. change (1 + 49) with 50.
  change (0 * length cart) with 0. rewrite Nat.Div0.div_0_l.
  rewrite py_slice_app by lia.
  rewrite (Nat.mul_comm 50), Nat.div_mul by lia.
  unfold py_slice. rewrite take_ge by (rewrite length_drop; lia).
  done.
Qed.

Lemma trajectory_segments_1000 cart :
  length cart = 1000 →
  trajectory_segments cart
  = map (λ i, py_slice (20 * i) (20 * (i + 1) + 1) cart) (seq 0 50).
Proof.
  intros Hlen. rewrite trajectory_segments_eq, Hlen.
  apply map_ext. intros i.
  replace (i * 1000) with (20 * i * 50) by lia.
  replace ((i + 1) * 1000) with (20 * (i + 1) * 50) by lia.
  by rewrite !Nat.div_mul by lia.
Qed.

Lemma linspace_1000 :
  linspace_int 1000 (NUM_SEGMENTS + 1) = map (λ i, 20 * i) (seq 0 51).
Proof.
  unfold linspace_int.
  change (NUM_SEGMENTS + 1) with 51. change (51 - 1) with 50.
  apply map_ext. intros i.
  replace (i * 1000) with (20 * i * 50) by lia.
  apply Nat.div_mul. lia.
Qed.

Lemma segment_lengths_1000 cart :
  length cart = 1000 →
  map length (trajectory_segments cart)
  = map (λ i, if decide (i = 49) then 20 else 21) (seq 0 50).
Proof.
  intros Hlen. rewrite trajectory_segments_1000 by done.
  rewrite map_map.
  apply map_ext_in. intros i Hi. apply in_seq in Hi.
  rewrite length_py_slice, Hlen. case_decide; lia.
Qed.
End Segmenter.

Section SegmenterClaims.
Context {A : Type}.
Implicit Types (cart : list A).

(** C3: for a path of 1000 points and 50 segments the breakpoints are
    the 51 evenly spaced integers 0, 20, ..., 1000; segment [i] holds the
    points from breakpoint [i] through breakpoint [i + 1], both included
    (breakpoint 1000 is one past the last point, so the last segment ends
    with point 999); the segment lengths add up to 1000 + 49; each of the 49
    overlap points ends one segment and starts the next; and joining the
    segments with those 49 duplicates removed gives the path back, every
    point in its place and in the segment its index names. *)
Theorem segmenter_coverage cart :
  length cart = 1000 →
  linspace_int (length cart) (NUM_SEGMENTS + 1) = map (λ i, 20 * i) (seq 0 51)
  ∧ length (trajectory_segments cart) = 50
  ∧ (∀ i, i < 50 →
       ∃ seg, trajectory_segments cart !! i = Some seg
            ∧ ∀ j, seg !! j = if decide (20 * i + j ≤ 20 * (i + 1))
                              then cart !! (20 * i + j) else None)
  ∧ list_sum (map length (trajectory_segments cart)) = 1000 + (50 - 1)
  ∧ (∀ i, i < 49 →
       ∃ p, trajectory_segments cart !! i ≫= last = Some p
          ∧ trajectory_segments cart !! (i + 1) ≫= head = Some p)
  ∧ length (concat (trajectory_segments cart))
    - length (stitch (trajectory_segments cart)) = 49
  ∧ stitch (trajectory_segments cart) = cart
  ∧ (∀ k, k < 1000 →
       ∃ seg, trajectory_segments cart !! (k / 20) = Some seg
            ∧ seg !! (k mod 20) = cart !! k).
Proof.
  intros Hlen.
  assert (Hseg : ∀ i, i < 50 →
            trajectory_segments cart !! i
            = Some (py_slice (20 * i) (20 * (i + 1) + 1) cart)).
  { intros i Hi. rewrite trajectory_segments_1000 by done.
    by rewrite list_lookup_fmap, lookup_seq_lt by lia. }
  assert (Hsum : list_sum (map length (trajectory_segments cart)) = 1049).
  { rewrite segment_lengths_1000 by done. reflexivity. }
  pose proof (stitch_trajectory_segments cart) as Hstitch.
  split; [by rewrite Hlen, linspace_1000|].
  split; [unfold trajectory_segments; by rewrite length_map, length_seq|].
  split.
  { intros i Hi. eexists. split; [by apply Hseg|].
    intros j. rewrite py_slice_lookup.
    repeat case_decide; try done; lia. }
  split; [rewrite Hsum; lia|].
  split.
  { intros i Hi.
    assert (is_Some (cart !! (20 * (i + 1)))) as [p Hp]
      by (apply lookup_lt_is_Some; lia).
    exists p. rewrite !Hseg by lia. simpl.
    rewrite last_lookup, head_lookup, length_py_slice, !py_slice_lookup, Hlen.
    rewrite !decide_True by lia.
    rewrite <- Hp. split; f_equal; lia. }
  split.
  { rewrite Hstitch, length_concat, Hsum, Hlen. lia. }
  split; [done|].
  intros k Hk.
  assert (k / 20 < 50) by (apply Nat.Div0.div_lt_upper_bound; lia).
  pose proof (Nat.div_mod_eq k 20) as Hdm.
  pose proof (Nat.mod_upper_bound k 20 ltac:(lia)) as Hmod.
  eexists. split; [by apply Hseg|].
  rewrite py_slice_lookup. rewrite decide_True by lia.
  f_equal. lia.
Qed.
End SegmenterClaims.

Lemma segmenter_coverage_witness :
  length (seq 0 1000) = 1000
  ∧ stitch (trajectory_segments (seq 0 1000)) = seq 0 1000
  ∧ list_sum (map length (trajectory_segments (seq 0 1000))) = 1000 + (50 - 1).
Proof.
  pose proof (length_seq 1000 0) as Hlen.
  destruct (segmenter_coverage (seq 0 1000) Hlen)
    as (_ & _ & _ & Hsum & _ & _ & Hstitch & _).
  split; [exact Hlen|]. split; [exact Hstitch | exact Hsum].
Defined.

Section TrajectoryFacts.
Variable cm : R → rgba.
Implicit Types (cart : array2 R) (plot_kwargs : gmap string kwval).

(** The colour entry of a segment's keyword arguments: the caller's, if
    [plot_kwargs] has one, and the colour map at [i / NUM_SEGMENTS]
    otherwise. *)
Lemma actual_plot_kwargs_color plot_kwargs (i : nat) :
  actual_plot_kwargs cm plot_kwargs i !! "color"
  = Some (default (KColor (cm (INR i / INR NUM_SEGMENTS)))
                  (plot_kwargs !! "color")).
Proof.
  unfold actual_plot_kwargs. rewrite lookup_union.
  rewrite lookup_insert_ne by done. rewrite lookup_singleton_eq.
  by destruct (plot_kwargs !! "color").
Qed.

(** On a path with at least one column every segment is drawn, with the
    keyword arguments of its index. *)
Lemma draw_segments_total cart plot_kwargs :
  ncols cart ≠ 0 →
  ∃ lines, draw_segments cm cart plot_kwargs = Some lines
         ∧ map line_kwargs lines
           = map (actual_plot_kwargs cm plot_kwargs) (seq 0 NUM_SEGMENTS).
Proof.
  intros Hc.
  set (g := λ i,
         let seg := Array2 (ncols cart) (plot_slice (rows cart) i) in
         Line3d
           (map (λ r, default fzero (r !! (0 `min` (ncols seg - 1)))) (rows seg))
           (map (λ r, default fzero (r !! (1 `min` (ncols seg - 1)))) (rows seg))
           (map (λ r, default fzero (r !! (2 `min` (ncols seg - 1)))) (rows seg))
           (actual_plot_kwargs cm plot_kwargs i)).
  exists (map g (seq 0 NUM_SEGMENTS)). split.
  - apply mapM_total. intros i. unfold draw_segment, get_col, g.
    cbn [ncols rows].
    destruct (decide (ncols cart = 0)); [done|]. reflexivity.
  - rewrite map_map. done.
Qed.
End TrajectoryFacts.

Section TrajectoryClaims.
Context {converters : Converters R}.
Variable interpolate_mee :
  list R → array2 R → nat → option (list R * array2 R).
Variable cm : R → rgba.
Implicit Types (cart : array2 R) (plot_kwargs : gmap string kwval).

(** C6, as the code has it: the orbit count handed to the colour bar is
    the final true longitude floor-divided by 2π, the number of completed
    revolutions, a whole number that is at most the quotient and within
    one of it. *)
Theorem orbit_count_floor t mee plot_kwargs r :
  plot_trajectory_mee interpolate_mee cm t mee plot_kwargs = Some r →
  ∃ l_final, last_entry mee = Some l_final
           ∧ n_orbits r = IZR (Zfloor (l_final / (2 * PI)))
           ∧ (n_orbits r <= l_final / (2 * PI) < n_orbits r + 1)%R.
Proof.
  unfold plot_trajectory_mee, orbit_count. intros Hr.
  destruct (last_entry mee) as [l_final|]; simpl in Hr; [|done].
  destruct (interpolate_mee t mee 100) as [[t_interp mee_interp]|];
    simpl in Hr; [|done].
  destruct (batch_mee_to_cartesian mee_interp MU_EARTH) as [cart|];
    simpl in Hr; [|done].
  destruct (draw_segments cm cart plot_kwargs) as [lines|];
    simpl in Hr; [|done].
  injection Hr as <-. exists l_final. simpl.
  split; [done|]. split; [done|].
  apply Zfloor_bound.
Qed.

(** C7, as the code has it: for any two paths and the same
    [plot_kwargs], segment [i] is drawn with the same keyword arguments
    in both runs; its colour is the caller's "color" entry when
    [plot_kwargs] has one, and the colour map at [i / NUM_SEGMENTS]
    otherwise, never a function of the path. *)
Theorem segment_colour cart1 cart2 plot_kwargs :
  ncols cart1 ≠ 0 → ncols cart2 ≠ 0 →
  ∃ lines1 lines2,
    draw_segments cm cart1 plot_kwargs = Some lines1
    ∧ draw_segments cm cart2 plot_kwargs = Some lines2
    ∧ map line_kwargs lines1 = map line_kwargs lines2
    ∧ ∀ i, i < NUM_SEGMENTS →
        ∃ l1 l2, lines1 !! i = Some l1 ∧ lines2 !! i = Some l2
               ∧ line_kwargs l1 = line_kwargs l2
               ∧ line_kwargs l1 !! "color"
                 = Some (default (KColor (cm (INR i / INR NUM_SEGMENTS)))
                                 (plot_kwargs !! "color")).
Proof.
  intros Hc1 Hc2.
  destruct (draw_segments_total cm cart1 plot_kwargs Hc1) as (lines1 & H1 & K1).
  destruct (draw_segments_total cm cart2 plot_kwargs Hc2) as (lines2 & H2 & K2).
  exists lines1, lines2. split; [done|]. split; [done|].
  split; [congruence|].
  intros i Hi.
  assert (Hk : ∀ lines,
            map line_kwargs lines
            = map (actual_plot_kwargs cm plot_kwargs) (seq 0 NUM_SEGMENTS) →
            ∃ l, lines !! i = Some l
               ∧ line_kwargs l = actual_plot_kwargs cm plot_kwargs i).
  { intros lines K.
    assert (map line_kwargs lines !! i
            = Some (actual_plot_kwargs cm plot_kwargs i)) as Hl
      by (rewrite K, list_lookup_fmap, lookup_seq_lt by done; done).
    rewrite list_lookup_fmap in Hl.
    destruct (lines !! i) as [l|]; simpl in Hl; [|done].
    exists l. split; [done|]. congruence. }
  destruct (Hk lines1 K1) as (l1 & Hl1 & E1).
  destruct (Hk lines2 K2) as (l2 & Hl2 & E2).
  exists l1, l2. split; [done|]. split; [done|].
  split; [congruence|].
  rewrite E1. apply actual_plot_kwargs_color.
Qed.
End TrajectoryClaims.

(** C8: the 3D plot asks the interpolator for 100 samples per revolution
    and for nothing else; at that density a true-longitude sweep of 6π
    (three revolutions) gives 300 dense samples, and in general the length
    is the sample count of the sweep rounded up, less than one above
    [sweep / 2π * 100]. *)
Theorem interpolator_density :
  interp_length (6 * PI) 100 = 300%Z
  ∧ (∀ sweep,
       (IZR (interp_length sweep 100) - 1 < sweep / (2 * PI) * 100
        <= IZR (interp_length sweep 100))%R)
  ∧ (∀ (converters : Converters R) interpolate_mee interpolate_mee' cm
       t mee plot_kwargs,
       interpolate_mee t mee 100 = interpolate_mee' t mee 100 →
       plot_trajectory_mee interpolate_mee cm t mee plot_kwargs
       = plot_trajectory_mee interpolate_mee' cm t mee plot_kwargs).
Proof.
  assert (H100 : INR 100 = 100%R) by (rewrite INR_IZR_INZ; reflexivity).
  unfold interp_length. rewrite H100. split; [|split].
  - apply Zceil_eq.
    replace (6 * PI / (2 * PI) * 100)%R with 300%R
      by (field; apply PI_neq0).
    lra.
  - intros sweep. apply Zceil_bound.
  - intros converters interp interp' cm t mee plot_kwargs Hsame.
    unfold plot_trajectory_mee. by rewrite Hsame.
Qed.

(** *** The trajectory plot on concrete data *)

Example linspace_int_10 : linspace_int 10 6 = [0; 2; 4; 6; 8; 10].
Proof. reflexivity. Qed.

Example linspace_int_rounds_down : linspace_int 7 5 = [0; 1; 3; 5; 7].
Proof. reflexivity. Qed.

Example py_slice_clips : py_slice 2 5 [10; 11; 12; 13] = [12; 13].
Proof. reflexivity. Qed.

(** On a path of 100 points segment 0 holds points 0..2 and segment 49,
    whose upper breakpoint is one past the end, points 98 and 99. *)
Example plot_slice_first : plot_slice (seq 0 100) 0 = [0; 1; 2].
Proof. reflexivity. Qed.

Example plot_slice_last : plot_slice (seq 0 100) 49 = [98; 99].
Proof. reflexivity. Qed.

Lemma orbit_count_floor_witness :
  ∃ r, plot_trajectory_mee
         (converters := passthrough_converters 398600441800000 4904869500000)%R
         identity_interpolation red_ramp [0; 1]%R half_revolution ∅ = Some r
     ∧ ∃ l_final, last_entry half_revolution = Some l_final
                ∧ n_orbits r = IZR (Zfloor (l_final / (2 * PI)))
                ∧ (n_orbits r <= l_final / (2 * PI) < n_orbits r + 1)%R.
Proof.
  eexists. split; [reflexivity|].
  eapply (orbit_count_floor
            (converters := passthrough_converters 398600441800000 4904869500000)%R
            identity_interpolation red_ramp [0; 1]%R half_revolution ∅).
  reflexivity.
Defined.

(** C6, the claim as stated fails: for a history that ends half a
    revolution in (final true longitude π) the reported count is 0, while
    the final true longitude divided by 2π is 1/2. *)
Lemma orbit_count_not_quotient :
  ∃ r, plot_trajectory_mee
         (converters := passthrough_converters 398600441800000 4904869500000)%R
         identity_interpolation red_ramp [0; 1]%R half_revolution ∅ = Some r
     ∧ last_entry half_revolution = Some PI
     ∧ n_orbits r = 0%R
     ∧ n_orbits r ≠ (PI / (2 * PI))%R.
Proof.
  assert (Hhalf : (PI / (2 * PI) = / 2)%R) by (field; apply PI_neq0).
  assert (Hzero : floor_divide PI (2 * PI) = 0%R).
  { unfold floor_divide. rewrite (Zfloor_eq 0); [done|].
    rewrite Hhalf. simpl. lra. }
  eexists. split; [reflexivity|]. split; [reflexivity|].
  cbn [n_orbits]. rewrite Hzero, Hhalf. split; [done|lra].
Qed.

Lemma segment_colour_witness :
  ncols short_path ≠ 0 ∧ ncols other_path ≠ 0
  ∧ ∃ lines1 lines2,
      draw_segments red_ramp short_path ∅ = Some lines1
      ∧ draw_segments red_ramp other_path ∅ = Some lines2
      ∧ map line_kwargs lines1 = map line_kwargs lines2.
Proof.
  assert (H1 : ncols short_path ≠ 0) by discriminate.
  assert (H2 : ncols other_path ≠ 0) by discriminate.
  split; [exact H1|]. split; [exact H2|].
  destruct (segment_colour red_ramp short_path other_path ∅ H1 H2)
    as (lines1 & lines2 & D1 & D2 & K & _).
  exists lines1, lines2. split; [exact D1|]. split; [exact D2 | exact K].
Defined.

(** C7, the claim as stated fails: a caller's "color" entry in
    [plot_kwargs] replaces the colour of the colour map, so the colour of
    segment 1 is that entry and not the gradient at 1/50. *)
Lemma colour_overridden_by_plot_kwargs :
  ∃ lines l,
    draw_segments red_ramp short_path {[ "color" := KStr "k" ]} = Some lines
    ∧ lines !! 1 = Some l
    ∧ line_kwargs l !! "color" = Some (KStr "k")
    ∧ line_kwargs l !! "color"
      ≠ Some (KColor (red_ramp (INR 1 / INR NUM_SEGMENTS))).
Proof.
  eexists _, _. split; [reflexivity|]. split; [reflexivity|].
  change (line_kwargs _)
    with (actual_plot_kwargs red_ramp {[ "color" := KStr "k" ]} 1).
  rewrite actual_plot_kwargs_color, lookup_singleton_eq. simpl.
  split; [done|discriminate].
Qed.

(** ** Further properties of the element plot *)

Section BroadcastFacts.
Context {F : Type} {scalar : Scalar F}.

Lemma bcast_dim_same (n : nat) : bcast_dim n n = Some n.
Proof. unfold bcast_dim. by rewrite decide_True. Qed.

Lemma bcast_dim_1_l (m : nat) : bcast_dim 1 m = Some m.
Proof. unfold bcast_dim. case_decide; [by subst|]. by rewrite decide_True. Qed.

Lemma bcast_dim_None (n m : nat) :
  n ≠ m → n ≠ 1 → m ≠ 1 → bcast_dim n m = None.
Proof. intros. unfold bcast_dim. by rewrite !decide_False. Qed.

(** A single row is subtracted from every row of the other array. *)
Lemma arr_sub_row_broadcast (c : nat) (s : list F) (rs : list (list F)) :
  arr_sub (Array2 c [s]) (Array2 c rs)
  = Some (Array2 c (map (λ rb, zip_with fsub s rb) rs)).
Proof.
  unfold arr_sub. simpl. rewrite bcast_dim_1_l, bcast_dim_same. simpl.
  rewrite stretch_same.
  rewrite zip_with_replicate_l by done.
  do 2 f_equal. apply map_ext. intros rb. by rewrite !stretch_same.
Qed.
End BroadcastFacts.

Section PlotElementsErrors.
Context {F : Type} {scalar : Scalar F} {converters : Converters F}.
Implicit Types (y : array2 F) (cfg : SimConfig F) (params : Params F).

(** X1: under a steering law other than "bbq_law" a history without
    columns makes the call fail, whatever the times, the ephemeris, the
    converters and [cfg.y_target] are: the constant target has no column 0
    for the first write of line 67 to index. *)
Theorem fixed_target_failure t y cfg params wrt_moon :
  steering_law cfg ≠ "bbq_law" →
  ncols y = 0 →
  plot_elements_mee t y cfg params wrt_moon = None.
Proof.
  intros Hs Hz. rewrite plot_elements_fixed, constant_target_eq by done.
  rewrite decide_False; [done|]. tauto.
Qed.

(** X2: the constant target is a function of the shape of the history and
    of [cfg.y_target] only: two histories of one shape get the same target,
    whatever their values. *)
Theorem target_depends_on_shape_only t cfg params wrt_moon y1 y2 :
  same_shape y1 y2 →
  constant_target cfg y1 = constant_target cfg y2
  ∧ (steering_law cfg ≠ "bbq_law" →
     plot_y_target <$> plot_elements_mee t y1 cfg params wrt_moon
     = plot_y_target <$> plot_elements_mee t y2 cfg params wrt_moon).
Proof.
  intros [Hc Hl].
  assert (Heq : constant_target cfg y1 = constant_target cfg y2).
  { rewrite !constant_target_eq, Hc.
    case_decide; [|done]. f_equal. unfold constant_target_spec.
    rewrite Hc. f_equal.
    rewrite <- (map_map length (target_row_spec cfg) (rows y1)).
    rewrite <- (map_map length (target_row_spec cfg) (rows y2)).
    by rewrite Hl. }
  split; [done|]. intros Hs.
  rewrite !plot_elements_fixed, Heq by done.
  by destruct (constant_target cfg y2).
Qed.

(** X4: under "bbq_law" a failing conversion of the history to Cartesian
    (line 50) fails the call under either value of [wrt_moon], although the
    Earth mode never uses its result; about the Earth a failing conversion
    of the Moon's states to elements (line 63) fails the call; and about
    the Earth [cfg.y_target] is not read. *)
Theorem earth_mode_failure t y cfg params :
  steering_law cfg = "bbq_law" →
  (batch_mee_to_cartesian y MU_EARTH = None →
   ∀ wrt_moon, plot_elements_mee t y cfg params wrt_moon = None)
  ∧ (batch_cartesian_to_mee (vmap_evaluate params t) MU_EARTH = None →
     plot_elements_mee t y cfg params false = None)
  ∧ (∀ cfg', steering_law cfg' = "bbq_law" →
       plot_elements_mee t y cfg' params false
       = plot_elements_mee t y cfg params false).
Proof.
  intros Hs. split; [|split].
  - intros Hcart [|].
    + rewrite plot_elements_moving_moon by done.
      unfold reference_shift_spec. by rewrite Hcart.
    + rewrite plot_elements_moving_earth by done. by rewrite Hcart.
  - intros Hmoon. rewrite plot_elements_moving_earth by done.
    rewrite Hmoon. by destruct (batch_mee_to_cartesian y MU_EARTH).
  - intros cfg' Hs'. by rewrite !plot_elements_moving_earth.
Qed.

(** X5: under "bbq_law" about the Moon, a Cartesian history whose sample
    count differs from the number of times (neither being 1), or whose
    column count is neither 6 nor 1, cannot be subtracted from the
    ephemeris, and the call fails. *)
Theorem moon_mode_shape_mismatch t y cfg params cart :
  steering_law cfg = "bbq_law" →
  batch_mee_to_cartesian y MU_EARTH = Some cart →
  (length (rows cart) ≠ length t ∧ length (rows cart) ≠ 1 ∧ length t ≠ 1)
  ∨ (ncols cart ≠ 6 ∧ ncols cart ≠ 1) →
  plot_elements_mee t y cfg params true = None.
Proof.
  intros Hs Hcart Hbad.
  rewrite plot_elements_moving_moon by done.
  unfold reference_shift_spec. rewrite Hcart. simpl.
  assert (arr_sub cart (vmap_evaluate params t) = None) as ->; [|done].
  unfold arr_sub, vmap_evaluate, ephem_dim. simpl. rewrite length_map.
  destruct Hbad as [(H1 & H2 & H3)|(H1 & H2)].
  - by rewrite (bcast_dim_None (length (rows cart)) (length t)).
  - rewrite (bcast_dim_None (ncols cart) 6) by done.
    by destruct (bcast_dim _ _).
Qed.

(** X6: a Cartesian history of a single sample is not rejected against a
    longer ephemeris: it is broadcast, and the drawn history has one sample
    per time, each the one state minus the Moon's state at that time. *)
Theorem moon_mode_single_sample t y cfg params s :
  steering_law cfg = "bbq_law" →
  batch_mee_to_cartesian y MU_EARTH = Some (Array2 6 [s]) →
  plot_y <$> plot_elements_mee t y cfg params true
  = (m ← batch_cartesian_to_mee
            (Array2 6 (map (λ tk, zip_with fsub s
                                    (evaluate (moon_ephem params) tk)) t))
            MU_MOON;
     _ ← constant_target cfg (dec_first m);
     Some (dec_first m)).
Proof.
  intros Hs Hcart.
  rewrite plot_elements_moving_moon by done.
  unfold reference_shift_spec, vmap_evaluate, ephem_dim.
  rewrite Hcart. simpl.
  rewrite arr_sub_row_broadcast, map_map. simpl.
  destruct (batch_cartesian_to_mee _ MU_MOON) as [m|]; simpl; [|done].
  by destruct (constant_target cfg (dec_first m)).
Qed.
End PlotElementsErrors.

(** X3: under a steering law other than "bbq_law" neither the converters
    nor the ephemeris is consulted: for the same times, history and
    configuration the drawn history, the target and the title are the same
    for any two implementations of the converters and any two ephemerides,
    failing ones included. *)
Theorem fixed_mode_ignores_collaborators {F : Type} {scalar : Scalar F}
    (conv1 conv2 : Converters F) (t : list F) (y : array2 F)
    (cfg : SimConfig F) (params1 params2 : Params F) (wrt_moon : bool) :
  steering_law cfg ≠ "bbq_law" →
  plot_elements_mee (converters := conv1) t y cfg params1 wrt_moon
  = plot_elements_mee (converters := conv2) t y cfg params2 wrt_moon.
Proof. intros Hs. by rewrite !plot_elements_fixed. Qed.

(** *** The further properties on concrete data *)

Lemma fixed_target_failure_witness :
  steering_law q_law_cfg ≠ "bbq_law"
  ∧ ncols no_columns = 0
  ∧ plot_elements_mee (converters := passthrough_converters 398600 4903)%Z
      [0; 1]%Z no_columns q_law_cfg sliding_moon false = None.
Proof.
  assert (Hs : steering_law q_law_cfg ≠ "bbq_law") by discriminate.
  assert (Hz : ncols no_columns = 0) by reflexivity.
  split; [exact Hs|]. split; [exact Hz|].
  exact (fixed_target_failure (scalar := Z_scalar)
           (converters := passthrough_converters 398600 4903)%Z
           [0; 1]%Z no_columns q_law_cfg sliding_moon false Hs Hz).
Defined.

Lemma target_depends_on_shape_only_witness :
  same_shape two_samples on_the_moon
  ∧ constant_target q_law_cfg two_samples
    = constant_target q_law_cfg on_the_moon.
Proof.
  assert (Hsh : same_shape two_samples on_the_moon) by (split; reflexivity).
  split; [exact Hsh|].
  exact (proj1 (target_depends_on_shape_only (scalar := Z_scalar)
                  (converters := passthrough_converters 398600 4903)%Z
                  [0; 1]%Z q_law_cfg sliding_moon false
                  two_samples on_the_moon Hsh)).
Defined.

Lemma fixed_mode_ignores_collaborators_witness :
  steering_law q_law_cfg ≠ "bbq_law"
  ∧ plot_elements_mee (converters := passthrough_converters 398600 4903)%Z
      [0; 1]%Z two_samples q_law_cfg sliding_moon true
    = plot_elements_mee (converters := failing_converters)
        [0; 1]%Z two_samples q_law_cfg
        {| moon_ephem := {| evaluate := λ _, [] |} |} true.
Proof.
  assert (Hs : steering_law q_law_cfg ≠ "bbq_law") by discriminate.
  split; [exact Hs|].
  exact (fixed_mode_ignores_collaborators _ _ _ _ _ _ _ _ Hs).
Defined.

Lemma earth_mode_failure_witness :
  steering_law bbq_law_cfg = "bbq_law"
  ∧ ∀ wrt_moon,
      plot_elements_mee (converters := no_cartesian_converters)
        [0; 1]%Z two_samples bbq_law_cfg sliding_moon wrt_moon = None.
Proof.
  split; [reflexivity|].
  exact (proj1 (earth_mode_failure (scalar := Z_scalar)
                  (converters := no_cartesian_converters)
                  [0; 1]%Z two_samples bbq_law_cfg sliding_moon
                  eq_refl) eq_refl).
Defined.

Lemma moon_mode_shape_mismatch_witness :
  plot_elements_mee (converters := passthrough_converters 398600 4903)%Z
    [0; 1; 2]%Z two_samples bbq_law_cfg sliding_moon true = None.
Proof.
  apply (moon_mode_shape_mismatch (scalar := Z_scalar)
           (converters := passthrough_converters 398600 4903)%Z
           [0; 1; 2]%Z two_samples bbq_law_cfg sliding_moon two_samples
           eq_refl eq_refl).
  left. simpl. lia.
Defined.

Lemma moon_mode_single_sample_witness :
  plot_y <$> plot_elements_mee (converters := passthrough_converters 398600 4903)%Z
               [0; 1]%Z one_sample bbq_law_cfg sliding_moon true
  = Some (Array2 6 [[6; 1; 2; 3; 3; 5]; [5; 1; 2; 3; 3; 5]]%Z).
Proof.
  rewrite (moon_mode_single_sample (scalar := Z_scalar)
             (converters := passthrough_converters 398600 4903)%Z
             [0; 1]%Z one_sample bbq_law_cfg sliding_moon
             [7; 1; 2; 3; 4; 5]%Z eq_refl eq_refl).
  reflexivity.
Defined.

(** ** Further properties of the trajectory plot *)

Section SegmentsAt.
Context {A : Type}.
Implicit Types (cart : list A) (bps : list nat).

Lemma trajectory_segments_at cart :
  trajectory_segments cart
  = segments_at (linspace_int (length cart) (NUM_SEGMENTS + 1)) cart.
Proof. reflexivity. Qed.

(** Exact arithmetic gives breakpoints of the kind NumPy returns. *)
Lemma linspace_int_like (M : nat) :
  linspace_like M (linspace_int M (NUM_SEGMENTS + 1)).
Proof.
  change (NUM_SEGMENTS + 1) with 51. unfold linspace_like.
  change NUM_SEGMENTS with 50.
  split; [by rewrite linspace_int_lookup by lia|].
  split.
  { rewrite linspace_int_lookup by lia. change (51 - 1) with 50.
    rewrite (Nat.mul_comm 50). apply Nat.div_mul. lia. }
  split.
  - intros i Hi. rewrite !linspace_int_lookup by lia.
    apply Nat.Div0.div_le_mono. lia.
  - intros i Hi HM. rewrite linspace_int_lookup by lia.
    change (51 - 1) with 50.
    apply Nat.Div0.div_lt_upper_bound. nia.
Qed.

Lemma segments_at_lookup bps cart (i : nat) :
  i < NUM_SEGMENTS →
  segments_at bps cart !! i
  = Some (py_slice (bps !!! i) (bps !!! (i + 1) + 1) cart).
Proof.
  intros Hi. unfold segments_at.
  by rewrite list_lookup_fmap, lookup_seq_lt by done.
Qed.

Lemma segments_at_stitch bps cart :
  linspace_like (length cart) bps → stitch (segments_at bps cart) = cart.
Proof.
  intros (H0 & Hlast & Hmono & _). unfold segments_at.
  change NUM_SEGMENTS with 50 in *.
  change (seq 0 50) with (0 :: seq 1 49).
  rewrite map_cons. unfold stitch. rewrite map_map.
  rewrite (concat_overlapping_slices (λ i, bps !!! i) cart 1 49)
    by (intros; apply Hmono; lia).
  assert (bps !!! 1 ≤ bps !!! 50) as Hle.
  { assert (∀ n, n ≤ 49 → bps !!! 1 ≤ bps !!! (1 + n)) as Hn.
    { induction n as [|n IH]; intros Hn; [done|].
      etrans; [apply IH; lia|].
      replace (1 + S n) with (1 + n + 1) by lia. apply Hmono. lia. }
    apply (Hn 49). lia. }
  pose proof (Hmono 0 ltac:(lia)) as H01.
  change (0 + 1) with 1 in *. change (1 + 49) with 50.
  rewrite py_slice_app by lia.
  rewrite H0, Hlast. unfold py_slice.
  rewrite take_ge by (rewrite length_drop; lia).
  done.
Qed.

Lemma length_stitch (s : list A) (rest : list (list A)) :
  Forall (λ r, r ≠ []) rest →
  list_sum (map length (s :: rest)) = length (stitch (s :: rest)) + length rest.
Proof.
  intros Hne. unfold stitch. rewrite length_app. simpl.
  enough (list_sum (map length rest)
          = length (concat (map (drop 1) rest)) + length rest) by lia.
  induction Hne as [|r rest Hr _ IH]; simpl; [done|].
  rewrite length_app, length_drop, IH.
  destruct r; [done|]. simpl. lia.
Qed.

(** X7: whatever the length of the path, and whichever way NumPy rounds
    the breakpoints, joining the 50 segments without the repeated first
    points gives the path back, and every point of the path lies in a
    segment. *)
Theorem segments_cover_path bps cart :
  linspace_like (length cart) bps →
  stitch (segments_at bps cart) = cart
  ∧ (∀ p, p ∈ cart → ∃ seg, seg ∈ segments_at bps cart ∧ p ∈ seg).
Proof.
  intros Hlike.
  pose proof (segments_at_stitch bps cart Hlike) as Hst.
  split; [done|].
  - intros p Hp. rewrite <- Hst in Hp.
    destruct (segments_at bps cart) as [|s rest]; simpl in Hp.
    { by apply elem_of_nil in Hp. }
    apply elem_of_app in Hp as [Hp|Hp].
    + exists s. split; [apply elem_of_cons; by left|done].
    + apply list_elem_of_In, in_concat in Hp as (d & Hd & Hp).
      apply in_map_iff in Hd as (r & <- & Hr).
      exists r. split; [apply elem_of_cons; right; by apply list_elem_of_In|].
      apply list_elem_of_In. destruct r; [done|]. by right.
Qed.

(** X8: on a path that is not empty every one of the 50 segments holds at
    least one point, the segment lengths add up to the length of the path
    plus 49, and each of the first 49 segments ends with the point at its
    upper breakpoint, with which the next segment starts. *)
Theorem segments_overlap bps cart :
  linspace_like (length cart) bps →
  0 < length cart →
  Forall (λ seg, seg ≠ []) (segments_at bps cart)
  ∧ list_sum (map length (segments_at bps cart))
    = length cart + (NUM_SEGMENTS - 1)
  ∧ ∀ i, i < NUM_SEGMENTS - 1 →
      ∃ p, cart !! (bps !!! (i + 1)) = Some p
         ∧ segments_at bps cart !! i ≫= last = Some p
         ∧ segments_at bps cart !! (i + 1) ≫= head = Some p.
Proof.
  intros Hlike Hpos.
  pose proof (segments_at_stitch bps cart Hlike) as Hst.
  destruct Hlike as (H0 & Hlast & Hmono & Hin).
  assert (Hlen : ∀ i, i < NUM_SEGMENTS →
            1 ≤ length (py_slice (bps !!! i) (bps !!! (i + 1) + 1) cart)).
  { intros i Hi. rewrite length_py_slice.
    pose proof (Hmono i Hi). pose proof (Hin i Hi Hpos). lia. }
  assert (Hne : Forall (λ seg, seg ≠ []) (segments_at bps cart)).
  { unfold segments_at. apply Forall_fmap, Forall_forall.
    intros i Hi. apply elem_of_seq in Hi. simpl.
    pose proof (Hlen i ltac:(lia)) as Hl.
    intros Hnil. rewrite Hnil in Hl. simpl in Hl. lia. }
  split; [done|]. split.
  - destruct (segments_at bps cart) as [|s rest] eqn:Hsegs.
    { unfold segments_at in Hsegs. done. }
    rewrite length_stitch by (by inversion Hne).
    rewrite Hst.
    assert (length (s :: rest) = NUM_SEGMENTS) as Hn
      by (rewrite <- Hsegs; unfold segments_at;
          by rewrite length_map, length_seq).
    simpl in Hn. change NUM_SEGMENTS with 50 in *. lia.
  - change NUM_SEGMENTS with 50 in *. intros i Hi.
    pose proof (Hmono i ltac:(lia)) as Hm1.
    pose proof (Hmono (i + 1) ltac:(lia)) as Hm2.
    pose proof (Hin i ltac:(lia) Hpos) as Hi1.
    pose proof (Hin (i + 1) ltac:(lia) Hpos) as Hi2.
    assert (is_Some (cart !! (bps !!! (i + 1)))) as [p Hp]
      by (apply lookup_lt_is_Some; lia).
    exists p. split; [done|].
    rewrite !segments_at_lookup by (change NUM_SEGMENTS with 50; lia).
    simpl.
    rewrite last_lookup, head_lookup, length_py_slice, !py_slice_lookup.
    rewrite !decide_True by lia.
    rewrite <- Hp. split; f_equal; lia.
Qed.
End SegmentsAt.

Lemma breakpoints_58_like : linspace_like (length (seq 0 58)) breakpoints_58.
Proof.
  rewrite length_seq. unfold linspace_like. change NUM_SEGMENTS with 50.
  split; [reflexivity|]. split; [reflexivity|]. split.
  - intros i Hi.
    do 50 (destruct i as [|i]; [vm_compute; lia|]). lia.
  - intros i Hi _.
    do 50 (destruct i as [|i]; [vm_compute; lia|]). lia.
Qed.

Lemma segments_cover_path_witness :
  linspace_like (length (seq 0 58)) breakpoints_58
  ∧ stitch (segments_at breakpoints_58 (seq 0 58)) = seq 0 58.
Proof.
  split; [exact breakpoints_58_like|].
  exact (proj1 (segments_cover_path breakpoints_58 (seq 0 58)
                  breakpoints_58_like)).
Defined.

Lemma segments_overlap_witness :
  linspace_like (length (seq 0 58)) breakpoints_58
  ∧ 0 < length (seq 0 58)
  ∧ list_sum (map length (segments_at breakpoints_58 (seq 0 58)))
    = length (seq 0 58) + (NUM_SEGMENTS - 1).
Proof.
  assert (Hpos : 0 < length (seq 0 58)) by (rewrite length_seq; lia).
  split; [exact breakpoints_58_like|]. split; [exact Hpos|].
  exact (proj1 (proj2 (segments_overlap breakpoints_58 (seq 0 58)
                         breakpoints_58_like Hpos))).
Defined.

Section TrajectoryErrors.
Context {converters : Converters R}.
Variable interpolate_mee :
  list R → array2 R → nat → option (list R * array2 R).
Variable cm : R → rgba.
Implicit Types (cart mee : array2 R) (plot_kwargs : gmap string kwval).

Lemma draw_segments_no_columns cart plot_kwargs :
  ncols cart = 0 → draw_segments cm cart plot_kwargs = None.
Proof.
  intros Hz. unfold draw_segments. apply mapM_None_2, Exists_exists.
  exists 0. split; [apply elem_of_seq; change NUM_SEGMENTS with 50; lia|].
  unfold draw_segment, get_col. cbn [ncols].
  by destruct (decide (ncols cart = 0)).
Qed.

(** X9: a path without columns fails the segment loop at its first
    segment; when the loop returns there are exactly 50 lines, also for a
    path of fewer than 50 points or of none; the three coordinate lists of
    a line have one length; and on a path with at least three columns they
    are columns 0, 1 and 2 of one contiguous run of the path's rows, so
    that velocities are never drawn. *)
Theorem draw_segments_lines cart plot_kwargs :
  (ncols cart = 0 → draw_segments cm cart plot_kwargs = None)
  ∧ ∀ lines, draw_segments cm cart plot_kwargs = Some lines →
      length lines = NUM_SEGMENTS
      ∧ ∀ i l, lines !! i = Some l →
          length (xs l) = length (ys l) ∧ length (ys l) = length (zs l)
          ∧ (3 ≤ ncols cart →
             ∃ a b, xs l = map (λ r, default 0%R (r !! 0))
                               (py_slice a b (rows cart))
                  ∧ ys l = map (λ r, default 0%R (r !! 1))
                               (py_slice a b (rows cart))
                  ∧ zs l = map (λ r, default 0%R (r !! 2))
                               (py_slice a b (rows cart))).
Proof.
  split; [apply draw_segments_no_columns|].
  intros lines Hl. unfold draw_segments in Hl.
  pose proof (length_mapM _ _ _ Hl) as Hlen. rewrite length_seq in Hlen.
  split; [done|].
  intros i l Hi. apply mapM_Some_1 in Hl.
  destruct (Forall2_lookup_r _ _ _ _ _ Hl Hi) as (j & Hj & Hd).
  unfold draw_segment, get_col in Hd. cbn [ncols rows] in Hd.
  destruct (decide (ncols cart = 0)) as [|Hc]; [done|].
  simpl in Hd. injection Hd as <-. simpl.
  rewrite !length_map. split; [done|]. split; [done|].
  intros H3. eexists _, _. unfold plot_slice.
  destruct (ncols cart) as [|[|[|c]]]; [lia..|]. simpl. done.
Qed.

(** X10: every entry of the caller's [plot_kwargs] reaches every segment
    unchanged and wins over the defaults; a key the caller leaves out is
    "linewidth" with value 1, "color" with the colour of the colour map,
    or absent. *)
Theorem plot_kwargs_merge cart plot_kwargs lines (i : nat) l (key : string) :
  draw_segments cm cart plot_kwargs = Some lines →
  lines !! i = Some l →
  line_kwargs l !! key
  = match plot_kwargs !! key with
    | Some v => Some v
    | None =>
        if decide (key = "linewidth") then Some (KNum 1)
        else if decide (key = "color")
             then Some (KColor (cm (INR i / INR NUM_SEGMENTS)))
             else None
    end.
Proof.
  intros Hl Hi. unfold draw_segments in Hl. apply mapM_Some_1 in Hl.
  destruct (Forall2_lookup_r _ _ _ _ _ Hl Hi) as (j & Hj & Hd).
  apply lookup_seq in Hj as [-> _]. simpl in Hd.
  unfold draw_segment in Hd.
  destruct (get_col 0 _); simpl in Hd; [|done].
  destruct (get_col 1 _); simpl in Hd; [|done].
  destruct (get_col 2 _); simpl in Hd; [|done].
  injection Hd as <-. simpl.
  unfold actual_plot_kwargs. rewrite lookup_union.
  destruct (plot_kwargs !! key) as [v|]; simpl.
  { by destruct (_ !! key). }
  repeat case_decide; subst.
  - by rewrite lookup_insert_eq.
  - by rewrite lookup_insert_ne, lookup_singleton_eq.
  - by rewrite lookup_insert_ne, lookup_singleton_ne.
Qed.

(** X11: each of these makes the trajectory plot fail: a history without
    a last entry (no sample, or no column), a failing interpolation, a
    failing conversion of the dense history, a dense path without columns;
    an empty history fails whatever the interpolation would return. *)
Theorem plot_trajectory_failure t mee plot_kwargs :
  (last_entry mee = None →
   plot_trajectory_mee interpolate_mee cm t mee plot_kwargs = None)
  ∧ (interpolate_mee t mee 100 = None →
     plot_trajectory_mee interpolate_mee cm t mee plot_kwargs = None)
  ∧ (∀ t_interp mee_interp,
       interpolate_mee t mee 100 = Some (t_interp, mee_interp) →
       batch_mee_to_cartesian mee_interp MU_EARTH = None
       ∨ (∃ cart, batch_mee_to_cartesian mee_interp MU_EARTH = Some cart
                ∧ ncols cart = 0) →
       plot_trajectory_mee interpolate_mee cm t mee plot_kwargs = None)
  ∧ (rows mee = [] →
     plot_trajectory_mee interpolate_mee cm t mee plot_kwargs = None).
Proof.
  unfold plot_trajectory_mee, orbit_count. repeat split.
  - by intros ->.
  - intros ->. by destruct (last_entry mee).
  - intros t_interp mee_interp -> Hbad.
    destruct (last_entry mee); simpl; [|done].
    destruct Hbad as [->|(cart & -> & Hz)]; simpl; [done|].
    by rewrite (draw_segments_no_columns cart plot_kwargs Hz).
  - intros Hrows. unfold last_entry. by rewrite Hrows.
Qed.
End TrajectoryErrors.

(** X12: the orbit count is taken from the last entry of the history that
    was passed in, before the interpolation: two calls that return, on
    histories with the same last entry, report the same count whatever the
    times, the interpolation, the converters, the colour map and the
    keyword arguments are; and the count is negative exactly when that
    final true longitude is, the division rounding down and not towards
    zero. *)
Theorem orbit_count_last_entry (conv1 conv2 : Converters R)
    (interp1 interp2 : list R → array2 R → nat → option (list R * array2 R))
    (cm1 cm2 : R → rgba) (t1 t2 : list R) (mee1 mee2 : array2 R)
    (kwargs1 kwargs2 : gmap string kwval) (r1 r2 : trajectory_plot) :
  last_entry mee1 = last_entry mee2 →
  plot_trajectory_mee (converters := conv1) interp1 cm1 t1 mee1 kwargs1
  = Some r1 →
  plot_trajectory_mee (converters := conv2) interp2 cm2 t2 mee2 kwargs2
  = Some r2 →
  n_orbits r1 = n_orbits r2
  ∧ ∃ l_final, last_entry mee1 = Some l_final
             ∧ ((n_orbits r1 < 0)%R ↔ (l_final < 0)%R).
Proof.
  unfold plot_trajectory_mee, orbit_count. intros Hlast Hr1 Hr2.
  rewrite <- Hlast in Hr2.
  destruct (last_entry mee1) as [l_final|]; simpl in Hr1, Hr2; [|done].
  destruct (interp1 t1 mee1 100) as [[ti1 mi1]|]; simpl in Hr1; [|done].
  destruct (batch_mee_to_cartesian mi1 MU_EARTH) as [cart1|];
    simpl in Hr1; [|done].
  destruct (draw_segments cm1 cart1 kwargs1); simpl in Hr1; [|done].
  destruct (interp2 t2 mee2 100) as [[ti2 mi2]|]; simpl in Hr2; [|done].
  destruct (batch_mee_to_cartesian mi2 MU_EARTH) as [cart2|];
    simpl in Hr2; [|done].
  destruct (draw_segments cm2 cart2 kwargs2); simpl in Hr2; [|done].
  injection Hr1 as <-. injection Hr2 as <-. simpl.
  split; [done|]. exists l_final. split; [done|].
  unfold floor_divide. pose proof PI_RGT_0 as Hpi.
  pose proof (Zfloor_bound (l_final / (2 * PI))) as [Hlo Hhi].
  assert (Hq : ((l_final / (2 * PI) < 0) ↔ (l_final < 0))%R).
  { split; intros Hneg.
    - apply (Rmult_lt_reg_r (/ (2 * PI))).
      + apply Rinv_0_lt_compat. lra.
      + rewrite Rmult_0_l. exact Hneg.
    - unfold Rdiv. rewrite <- (Rmult_0_l (/ (2 * PI))).
      apply Rmult_lt_compat_r; [apply Rinv_0_lt_compat; lra|done]. }
  rewrite <- Hq. split; intros Hneg; [|lra].
  apply (lt_IZR _ 0) in Hneg.
  assert (Hle : (Zfloor (l_final / (2 * PI)) <= -1)%Z) by lia.
  apply IZR_le in Hle. lra.
Qed.

Lemma plot_kwargs_merge_witness :
  ∃ lines l,
    draw_segments red_ramp short_path {[ "linewidth" := KNum 2 ]} = Some lines
    ∧ lines !! 3 = Some l
    ∧ line_kwargs l !! "linewidth" = Some (KNum 2)
    ∧ line_kwargs l !! "alpha" = None.
Proof.
  eexists _, _. split; [reflexivity|]. split; [reflexivity|].
  split.
  - erewrite (plot_kwargs_merge red_ramp short_path
                {[ "linewidth" := KNum 2 ]} _ 3 _ "linewidth");
      [|reflexivity|reflexivity].
    by rewrite lookup_singleton_eq.
  - erewrite (plot_kwargs_merge red_ramp short_path
                {[ "linewidth" := KNum 2 ]} _ 3 _ "alpha");
      [|reflexivity|reflexivity].
    by rewrite lookup_singleton_ne.
Defined.

Lemma orbit_count_last_entry_witness :
  ∃ r1 r2,
    plot_trajectory_mee
      (converters := passthrough_converters 398600441800000 4904869500000)%R
      identity_interpolation red_ramp [0; 1]%R half_revolution ∅ = Some r1
    ∧ plot_trajectory_mee
        (converters := passthrough_converters 1 1)%R
        (λ _ _ _, Some ([], short_path)) (λ _, (0, 0, 0, 1)%R) []
        half_revolution {[ "linewidth" := KNum 2 ]} = Some r2
    ∧ n_orbits r1 = n_orbits r2.
Proof.
  eexists _, _. split; [reflexivity|]. split; [reflexivity|].
  refine (proj1 (orbit_count_last_entry
                   (passthrough_converters 398600441800000 4904869500000)%R
                   (passthrough_converters 1 1)%R
                   identity_interpolation (λ _ _ _, Some ([], short_path))
                   red_ramp (λ _, (0, 0, 0, 1)%R) [0; 1]%R []
                   half_revolution half_revolution
                   ∅ {[ "linewidth" := KNum 2 ]} _ _ eq_refl _ _));
    reflexivity.
Defined.

Section MoonModeSuccess.
Context {F : Type} {scalar : Scalar F} {converters : Converters F}.
Implicit Types (y : array2 F) (cfg : SimConfig F) (params : Params F).

(** X13: under "bbq_law" about the Moon a call that returns has converted
    the history to Cartesian, subtracted the Moon's states from it,
    converted the difference to elements about the Moon and found at least
    one column in them; if any of these steps fails, so does the call. *)
Theorem moon_mode_success t y cfg params :
  steering_law cfg = "bbq_law" →
  is_Some (plot_elements_mee t y cfg params true) →
  ∃ cart rel m,
    batch_mee_to_cartesian y MU_EARTH = Some cart
    ∧ arr_sub cart (vmap_evaluate params t) = Some rel
    ∧ batch_cartesian_to_mee rel MU_MOON = Some m
    ∧ ncols m ≠ 0.
Proof.
  intros Hs [r Hr]. rewrite plot_elements_moving_moon in Hr by done.
  unfold reference_shift_spec in Hr. bind_inv Hr.
  match goal with
  | Ht : constant_target cfg _ = Some _ |- _ =>
      rewrite constant_target_eq in Ht; case_decide as Hok; [|done]
  end.
  destruct Hok as [Hz Hl].
  match goal with
  | Hshift : mbind _ _ = Some _ |- _ => bind_inv Hshift; simplify_eq
  end.
  simpl in Hz. eauto 10.
Qed.
End MoonModeSuccess.

Lemma moon_mode_success_witness :
  steering_law bbq_law_cfg = "bbq_law"
  ∧ ∃ cart rel m,
      batch_mee_to_cartesian
        (Converters := passthrough_converters 398600 4903)%Z
        two_samples 398600%Z = Some cart
      ∧ arr_sub cart (vmap_evaluate sliding_moon [0; 1]%Z) = Some rel
      ∧ batch_cartesian_to_mee
          (Converters := passthrough_converters 398600 4903)%Z
          rel 4903%Z = Some m
      ∧ ncols m ≠ 0.
Proof.
  split; [reflexivity|].
  assert (Hr : is_Some (plot_elements_mee
                          (converters := passthrough_converters 398600 4903)%Z
                          [0; 1]%Z two_samples bbq_law_cfg sliding_moon true))
    by (eexists; reflexivity).
  exact (moon_mode_success (scalar := Z_scalar)
           (converters := passthrough_converters 398600 4903)%Z
           [0; 1]%Z two_samples bbq_law_cfg sliding_moon eq_refl Hr).
Defined.
